(** * email-verifier: a shallow embedding of [email_verifier.py]

    The development follows the Python module function by function:
    Python text is a list of Unicode code points, the [sqlite3] table
    [verifications] is a list of rows kept unique on its primary key, and
    every call that can raise does so inside a small state-and-exception
    monad, so that each [try]/[except] of the source is visible. *)

From Stdlib Require Import List NArith ZArith Bool String Ascii Lia.
From Stdlib Require Import Sorted Permutation.
Import ListNotations.



(** ** Python text *)

(** A [str] is a sequence of code points; a [bytes] object a sequence of
    octets.  Both are lists of [N]. *)
Definition pystr := list N.
Definition pybytes := list N.

Module Text.

(** Literals of the source are written as Rocq strings; those are octet
    strings, so a literal is read back from its UTF-8 form. *)
Fixpoint utf8 (bs : list N) : pystr :=
  match bs with
  | [] => []
  | b0 :: r0 =>
      if (b0 <? 128)%N then b0 :: utf8 r0
      else
        match r0 with
        | [] => []
        | b1 :: r1 =>
            if (b0 <? 224)%N
            then ((b0 - 192) * 64 + (b1 - 128))%N :: utf8 r1
            else
              match r1 with
              | [] => []
              | b2 :: r2 =>
                  if (b0 <? 240)%N
                  then ((b0 - 224) * 4096 + (b1 - 128) * 64 + (b2 - 128))%N
                         :: utf8 r2
                  else
                    match r2 with
                    | [] => []
                    | b3 :: r3 =>
                        ((b0 - 240) * 262144 + (b1 - 128) * 4096
                         + (b2 - 128) * 64 + (b3 - 128))%N :: utf8 r3
                    end
              end
        end
  end.

Definition octets (s : string) : pybytes :=
  map N_of_ascii (list_ascii_of_string s).

Definition lit (s : string) : pystr := utf8 (octets s).

Definition eqb (a b : pystr) : bool :=
  if list_eq_dec N.eq_dec a b then true else false.

Definition in_range (lo hi c : N) : bool := ((lo <=? c) && (c <=? hi))%N.

Definition is_ascii (c : N) : bool := (c <? 128)%N.

(** [bytes.startswith] *)
Fixpoint startswith (prefix s : list N) : bool :=
  match prefix, s with
  | [], _ => true
  | _ :: _, [] => false
  | p :: prefix', c :: s' => (p =? c)%N && startswith prefix' s'
  end.

(** [s[:n]] for a non-negative [n]. *)
Definition slice_to (n : nat) (s : pystr) : pystr := firstn n s.

(** [str.split(sep)] for a one-character separator: the pieces between
    the separators, always at least one piece. *)
Fixpoint split (sep : N) (s : pystr) : list pystr :=
  match s with
  | [] => [[]]
  | c :: s' =>
      if (c =? sep)%N then [] :: split sep s'
      else
        match split sep s' with
        | [] => [[c]]
        | piece :: pieces => (c :: piece) :: pieces
        end
  end.

(** [str.rstrip(chars)] with the set of characters given as a test. *)
Fixpoint rstrip (drop : N -> bool) (s : pystr) : pystr :=
  match s with
  | [] => []
  | c :: s' =>
      match rstrip drop s' with
      | [] => if drop c then [] else [c]
      | kept => c :: kept
      end
  end.

Fixpoint lstrip (drop : N -> bool) (s : pystr) : pystr :=
  match s with
  | [] => []
  | c :: s' => if drop c then lstrip drop s' else s
  end.

Definition strip_with (drop : N -> bool) (s : pystr) : pystr :=
  rstrip drop (lstrip drop s).

End Text.

Notation "'u' s" := (Text.lit s) (at level 1, s at level 0, only parsing).

(** ** Exceptions

    Only subclasses of [Exception] are modelled, which is what the
    handlers of the source name.  [asyncio.TimeoutError] has a handler of
    its own in [smtp_verify] and is kept apart; both carry [str(e)]. *)
Inductive exn :=
| TimeoutError (text : pystr)
| Exception (text : pystr).

Definition exn_str (e : exn) : pystr :=
  match e with
  | TimeoutError t => t
  | Exception t => t
  end.

(** ** The interpreter's text routines

    What [str.strip], [int], [bytes.decode], [str.encode] and [str.lower]
    do on plain ASCII is written out below.  Beyond ASCII they follow the
    Unicode database and the codec of the interpreter, which are not part
    of this repository and are taken as they come. *)
Record runtime := {
  rt_isspace : N -> bool;
  rt_int : pystr -> option Z;
  rt_decode : pybytes -> exn + pystr;
  rt_encode : pystr -> exn + pybytes;
  rt_lower : pystr -> pystr
}.

Module Py.
Section WithRuntime.
Variable rt : runtime.

(** Whitespace as [str.strip()] sees it: for ASCII, tab to carriage
    return, the four separators 0x1c-0x1f and the space. *)
Definition isspace (c : N) : bool :=
  if Text.is_ascii c
  then Text.in_range 9 13 c || Text.in_range 28 31 c || (c =? 32)%N
  else rt_isspace rt c.

Definition strip (s : pystr) : pystr := Text.strip_with isspace s.

Definition is_ascii_digit (c : N) : bool := Text.in_range 48 57 c.

Definition decimal_value (s : pystr) : Z :=
  fold_left (fun acc c => (acc * 10 + (Z.of_N c - 48))%Z) s 0%Z.

(** [int(s)]: [None] stands for [ValueError], which the empty string
    raises; a run of ASCII digits is read in base ten.  Whatever else the
    interpreter accepts (a sign, blanks, underscores, digits of other
    scripts), a character gives one digit at most, so the value has no
    more digits than the text has characters. *)
Definition int (s : pystr) : option Z :=
  match s with
  | [] => None
  | _ :: _ =>
      if forallb is_ascii_digit s then Some (decimal_value s)
      else
        match rt_int rt s with
        | Some n =>
            if (Z.abs n <? 10 ^ Z.of_nat (List.length s))%Z
            then Some n else None
        | None => None
        end
  end.

(** [b.decode()], UTF-8 and strict. *)
Definition decode (b : pybytes) : exn + pystr :=
  if forallb Text.is_ascii b then inr b else rt_decode rt b.

(** [s.encode()]. *)
Definition encode (s : pystr) : exn + pybytes :=
  if forallb Text.is_ascii s then inr s else rt_encode rt s.

Definition ascii_lower (c : N) : N :=
  if Text.in_range 65 90 c then (c + 32)%N else c.

(** [s.lower()]. *)
Definition lower (s : pystr) : pystr :=
  if forallb Text.is_ascii s then map ascii_lower s else rt_lower rt s.

End WithRuntime.
End Py.

(** ** Regular expressions, as far as [re.match] is used *)

Module Re.

Inductive regex :=
| Void
| Eps
| Class (p : N -> bool)
| Seq (r1 r2 : regex)
| Alt (r1 r2 : regex)
| Star (r : regex).

(** [r+] and [r{2,}] *)
Definition Plus (r : regex) : regex := Seq r (Star r).
Definition AtLeast2 (r : regex) : regex := Seq r (Seq r (Star r)).
Definition Lit (c : N) : regex := Class (N.eqb c).

Fixpoint nullable (r : regex) : bool :=
  match r with
  | Void => false
  | Eps => true
  | Class _ => false
  | Seq r1 r2 => nullable r1 && nullable r2
  | Alt r1 r2 => nullable r1 || nullable r2
  | Star _ => true
  end.

Fixpoint deriv (c : N) (r : regex) : regex :=
  match r with
  | Void => Void
  | Eps => Void
  | Class p => if p c then Eps else Void
  | Seq r1 r2 =>
      if nullable r1
      then Alt (Seq (deriv c r1) r2) (deriv c r2)
      else Seq (deriv c r1) r2
  | Alt r1 r2 => Alt (deriv c r1) (deriv c r2)
  | Star r1 => Seq (deriv c r1) (Star r1)
  end.

(** The whole of [s] is in the language of [r]. *)
Fixpoint fullmatch (r : regex) (s : pystr) : bool :=
  match s with
  | [] => nullable r
  | c :: s' => fullmatch (deriv c r) s'
  end.

(** [s] without a final line feed, when it has one. *)
Fixpoint chop_newline (s : pystr) : option pystr :=
  match s with
  | [] => None
  | [c] => if (c =? 10)%N then Some [] else None
  | c :: s' =>
      match chop_newline s' with
      | Some t => Some (c :: t)
      | None => None
      end
  end.

(** [re.match('^' r '$', s) is not None].  [re.match] anchors at the
    start; without [re.MULTILINE] the [$] matches at the end of the
    string and also just before a line feed that ends the string. *)
Definition match_to_dollar (r : regex) (s : pystr) : bool :=
  fullmatch r s
  || match chop_newline s with
     | Some s' => fullmatch r s'
     | None => false
     end.

(** The language of a regular expression. *)
Inductive matches : regex -> pystr -> Prop :=
| MEps : matches Eps []
| MClass p c : p c = true -> matches (Class p) [c]
| MSeq r1 r2 s1 s2 :
    matches r1 s1 -> matches r2 s2 -> matches (Seq r1 r2) (s1 ++ s2)
| MAltL r1 r2 s : matches r1 s -> matches (Alt r1 r2) s
| MAltR r1 r2 s : matches r2 s -> matches (Alt r1 r2) s
| MStarNil r : matches (Star r) []
| MStarApp r s1 s2 :
    matches r s1 -> matches (Star r) s2 -> matches (Star r) (s1 ++ s2).

End Re.

(** ** The address validator *)

Definition is_letter (c : N) : bool :=
  Text.in_range 97 122 c || Text.in_range 65 90 c.
Definition is_digit (c : N) : bool := Text.in_range 48 57 c.

(** [[a-zA-Z0-9._%+-]] *)
Definition local_class (c : N) : bool :=
  is_letter c || is_digit c
  || (c =? 46)%N || (c =? 95)%N || (c =? 37)%N || (c =? 43)%N || (c =? 45)%N.

(** [[a-zA-Z0-9.-]] *)
Definition domain_class (c : N) : bool :=
  is_letter c || is_digit c || (c =? 46)%N || (c =? 45)%N.

(** [[a-zA-Z0-9._%+-]+@[a-zA-Z0-9.-]+\.[a-zA-Z]{2,}], the pattern between
    its two anchors. *)
Definition email_pattern : Re.regex :=
  Re.Seq (Re.Plus (Re.Class local_class))
    (Re.Seq (Re.Lit 64)
       (Re.Seq (Re.Plus (Re.Class domain_class))
          (Re.Seq (Re.Lit 46) (Re.AtLeast2 (Re.Class is_letter))))).

Definition is_valid_email_format (email : pystr) : bool :=
  Re.match_to_dollar email_pattern email.

(** ** Data *)

(** [VerificationResult].  [timestamp] is a [datetime], kept as the count
    of microseconds it denotes; [verification_time] is a difference of two
    [time.time()] readings, kept in the same unit. *)
Record VerificationResult := {
  email : pystr;
  is_valid : bool;
  status_code : option Z;
  server_response : pystr;
  mx_records : list pystr;
  verification_time : Z;
  timestamp : Z;
  error_message : option pystr;
  cached : bool
}.

(** A row of the table [verifications], column by column.  The column
    [mx_records] holds [json.dumps] of the list and is read back with
    [json.loads]; the column [timestamp] holds [isoformat()] and is read
    back with [fromisoformat].  Both round trips are the identity, and two
    [isoformat()] texts compare as the instants they denote (fields of
    fixed width, the fraction left out only when it is zero), so a row
    keeps the list and the instant themselves. *)
Record row := {
  row_email : pystr;
  row_is_valid : bool;
  row_status_code : option Z;
  row_server_response : pystr;
  row_mx_records : list pystr;
  row_verification_time : Z;
  row_timestamp : Z;
  row_error_message : option pystr
}.

(** An entry of [sender_configs]: the keys ['email'] and ['helo']. *)
Record sender := {
  sender_email : pystr;
  sender_helo : pystr
}.

(** An MX record of a DNS answer: [preference], and [str(exchange)]. *)
Record mx_rdata := {
  preference : N;
  exchange : pystr
}.

(** ** The world outside the interpreter *)

(** What comes of waiting on a connection: a value; an exception that
    leaves the connection as it is, such as a time-out; or the loss of
    the connection, where the event loop has closed the transport by the
    time the exception is raised in [smtp_verify]. *)
Inductive io (A : Type) :=
| Done (a : A)
| Failed (e : exn)
| Lost (e : exn).
Arguments Done {A} a.
Arguments Failed {A} e.
Arguments Lost {A} e.

(** What the peer on port 25 does at each point where [smtp_verify]
    waits.  Before the connection is there and after [writer.close()]
    there is nothing to lose, and [Lost] is a failure like any other. *)
Record smtp_peer := {
  on_connect : io unit;
  on_greeting : io pybytes;
  on_ehlo_drain : io unit;
  on_ehlo_reply : io pybytes;
  on_mail_drain : io unit;
  on_mail_reply : io pybytes;
  on_rcpt_drain : io unit;
  on_rcpt_reply : io pybytes;
  on_quit_drain : io unit;
  on_wait_closed : io unit
}.

(** Everything one call of [verify_email] reads from outside: the
    configuration, the clocks, the faults of the store, the resolver and
    the mail hosts.  An instant is counted in microseconds from
    [datetime.min], the start of the year 1. *)
Record env := {
  cache_hours : Z;
  clock_lookup : Z;
  clock_result : Z;
  time_start : Z;
  time_end : Z;
  select_fault : option exn;
  upsert_fault : option exn;
  commit_fault : option exn;
  dns : pystr -> exn + list mx_rdata;
  peer : pystr -> smtp_peer
}.

Inductive event :=
| SqlSelect (key : pystr) (cutoff : Z)
| SqlUpsert (r : row)
| DnsQuery (domain : pystr)
| TcpConnect (host : pystr) (port : N)
| TcpSend (data : pybytes)
| TcpClose.

(** The state of an [EmailVerifier]: the table behind [self.conn], the
    cursor [self.current_sender], the connections opened and not yet
    closed, and the effects so far, oldest first. *)
Record world := {
  table : list row;
  current_sender : nat;
  sockets : nat;
  trace : list event
}.

Definition set_table (t : list row) (w : world) : world :=
  {| table := t; current_sender := current_sender w;
     sockets := sockets w; trace := trace w |}.
Definition set_current_sender (n : nat) (w : world) : world :=
  {| table := table w; current_sender := n;
     sockets := sockets w; trace := trace w |}.
Definition set_sockets (n : nat) (w : world) : world :=
  {| table := table w; current_sender := current_sender w;
     sockets := n; trace := trace w |}.
Definition log (e : event) (w : world) : world :=
  {| table := table w; current_sender := current_sender w;
     sockets := sockets w; trace := trace w ++ [e] |}.

(** ** State and exceptions *)

Inductive outcome (A : Type) :=
| Return (a : A)
| Raise (e : exn).
Arguments Return {A} a.
Arguments Raise {A} e.

Definition M (A : Type) : Type := world -> outcome A * world.

Definition ret {A} (a : A) : M A := fun w => (Return a, w).
Definition raise {A} (e : exn) : M A := fun w => (Raise e, w).
Definition bind {A B} (m : M A) (k : A -> M B) : M B :=
  fun w =>
    match m w with
    | (Return a, w') => k a w'
    | (Raise e, w') => (Raise e, w')
    end.
(** [try: m  except ... as e: h e] *)
Definition try_except {A} (m : M A) (h : exn -> M A) : M A :=
  fun w =>
    match m w with
    | (Return a, w') => (Return a, w')
    | (Raise e, w') => h e w'
    end.
Definition lift {A} (r : exn + A) : M A :=
  match r with
  | inr a => ret a
  | inl e => raise e
  end.
Definition get {A} (f : world -> A) : M A := fun w => (Return (f w), w).
Definition modify (f : world -> world) : M unit := fun w => (Return tt, f w).

Declare Scope py_scope.
Delimit Scope py_scope with py.
Notation "x <- m ;; k" := (bind m (fun x => k))
  (at level 100, m at next level, right associativity) : py_scope.
Notation "m ;; k" := (bind m (fun _ => k))
  (at level 100, right associativity) : py_scope.
Open Scope py_scope.

(** ** [class EmailVerifier] *)

Definition crlf : pystr := [13%N; 10%N].

(** [self.sender_configs] *)
Definition sender_configs : list sender :=
  [ {| sender_email := u"validator@emailcheck.tech";
       sender_helo := u"mail-validator-1.emailcheck.tech" |};
    {| sender_email := u"checker@emailcheck.tech";
       sender_helo := u"mail-validator-2.emailcheck.tech" |};
    {| sender_email := u"verify@emailcheck.tech";
       sender_helo := u"mail-validator-3.emailcheck.tech" |} ].

(** The verifier as [__init__] leaves it, over the rows that the database
    file already holds ([CREATE TABLE IF NOT EXISTS] keeps them). *)
Definition init (stored : list row) : world :=
  {| table := stored; current_sender := 0; sockets := 0; trace := [] |}.

(** [sorted(xs, key=...)]: stable, ascending. *)
Fixpoint insert_by {A} (key : A -> N) (x : A) (l : list A) : list A :=
  match l with
  | [] => [x]
  | y :: l' =>
      if (key x <=? key y)%N then x :: y :: l' else y :: insert_by key x l'
  end.

Definition sorted {A} (key : A -> N) (l : list A) : list A :=
  fold_right (insert_by key) [] l.

Definition row_of_result (r : VerificationResult) : row :=
  {| row_email := email r;
     row_is_valid := is_valid r;
     row_status_code := status_code r;
     row_server_response := server_response r;
     row_mx_records := mx_records r;
     row_verification_time := verification_time r;
     row_timestamp := timestamp r;
     row_error_message := error_message r |}.

(** The [VerificationResult(...)] built from a fetched row, [cached=True]. *)
Definition result_of_row (r : row) : VerificationResult :=
  {| email := row_email r;
     is_valid := row_is_valid r;
     status_code := row_status_code r;
     server_response := row_server_response r;
     mx_records := row_mx_records r;
     verification_time := row_verification_time r;
     timestamp := row_timestamp r;
     error_message := row_error_message r;
     cached := true |}.

(** [WHERE email = ? AND timestamp > ?], [fetchone()] *)
Definition select_fresh (key : pystr) (cutoff : Z) (t : list row)
  : option row :=
  find (fun r => Text.eqb (row_email r) key && (cutoff <? row_timestamp r)%Z) t.

(** [INSERT OR REPLACE] on a table whose primary key is [email]: the row
    in conflict goes, the new row comes. *)
Definition insert_or_replace (r : row) (t : list row) : list row :=
  filter (fun r' => negb (Text.eqb (row_email r') (row_email r))) t ++ [r].

Definition microseconds_per_hour : Z := 3600000000.

(** [datetime.max], the last microsecond of the year 9999. *)
Definition datetime_max : Z := 315537897599999999.

(** [now - delta] on a [datetime]: [OverflowError] when the result is
    no date between [datetime.min] and [datetime.max]. *)
Definition datetime_sub (now delta : Z) : exn + Z :=
  if ((0 <=? now - delta) && (now - delta <=? datetime_max))%Z
  then inr (now - delta)%Z
  else inl (Exception (u"date value out of range")).

(** An [INTEGER] of the store is a signed 64-bit number; binding a
    larger Python [int] raises [OverflowError]. *)
Definition fits_integer (n : Z) : bool :=
  ((-9223372036854775808 <=? n) && (n <=? 9223372036854775807))%Z.

Definition row_binds (r : row) : bool :=
  match row_status_code r with
  | Some n => fits_integer n
  | None => true
  end.

Section Verifier.
Variable rt : runtime.
Variable E : env.

(** [self.cache_duration = timedelta(hours=cache_hours)], in
    microseconds.  The constructor has built it, so it is one of the
    durations the interpreter can hold; no statement below rests on
    that. *)
Definition cache_duration : Z := cache_hours E * microseconds_per_hour.

(** [dns.resolver.resolve(domain, 'MX')] *)
Definition resolve_mx (domain : pystr) : M (list mx_rdata) :=
  modify (log (DnsQuery domain)) ;;
  lift (dns E domain).

Definition get_mx_records (domain : pystr) : M (list pystr) :=
  try_except
    (mx_records <- resolve_mx domain ;;
     let sorted_mx := sorted preference mx_records in
     ret (map (fun mx => Text.rstrip (N.eqb 46) (exchange mx)) sorted_mx))
    (fun _ => ret []).

(** [cursor.execute('SELECT ...'); cursor.fetchone()] *)
Definition execute_select (key : pystr) (cutoff : Z) : M (option row) :=
  modify (log (SqlSelect key cutoff)) ;;
  match select_fault E with
  | Some e => raise e
  | None => get (fun w => select_fresh key cutoff (table w))
  end.

Definition get_cached_result (addr : pystr)
  : M (option VerificationResult) :=
  try_except
    (cutoff_time <- lift (datetime_sub (clock_lookup E) cache_duration) ;;
     fetched <- execute_select addr cutoff_time ;;
     match fetched with
     | Some r => ret (Some (result_of_row r))
     | None => ret None
     end)
    (fun _ => ret None).

(** [self.conn.execute('INSERT OR REPLACE ...')] *)
Definition execute_upsert (r : row) : M unit :=
  modify (log (SqlUpsert r)) ;;
  match upsert_fault E with
  | Some e => raise e
  | None =>
      if row_binds r
      then modify (fun w => set_table (insert_or_replace r (table w)) w)
      else raise (Exception
                    (u"Python int too large to convert to SQLite INTEGER"))
  end.

(** [self.conn.commit()].  When it fails the row stays visible to the
    connection that wrote it: [table] is what the verifier reads through
    its own connection, not what the file holds for another process. *)
Definition commit : M unit :=
  match commit_fault E with
  | Some e => raise e
  | None => ret tt
  end.

Definition cache_result (result : VerificationResult) : M unit :=
  try_except
    (execute_upsert (row_of_result result) ;;
     commit)
    (fun _ => ret tt).

Definition get_next_sender : M sender :=
  cursor <- get current_sender ;;
  match nth_error sender_configs cursor with
  | None => raise (Exception (u"list index out of range"))
  | Some chosen =>
      modify (set_current_sender (Nat.modulo (cursor + 1) (List.length sender_configs))) ;;
      ret chosen
  end.

(** [asyncio.open_connection(mx_host, 25)] under [wait_for] *)
Definition open_connection (host : pystr) (port : N) (r : io unit)
  : M unit :=
  match r with
  | Done _ =>
      modify (fun w => set_sockets (S (sockets w)) (log (TcpConnect host port) w))
  | Failed e => raise e
  | Lost e => raise e
  end.

(** [await] on the open connection: [reader.readline()] under
    [wait_for], and [writer.drain()]. *)
Definition await {A} (r : io A) : M A :=
  match r with
  | Done a => ret a
  | Failed e => raise e
  | Lost e =>
      modify (fun w => set_sockets (Nat.pred (sockets w)) w) ;;
      raise e
  end.

(** [await writer.wait_closed()], after [writer.close()] *)
Definition wait_closed (r : io unit) : M unit :=
  match r with
  | Done _ => ret tt
  | Failed e => raise e
  | Lost e => raise e
  end.

(** [writer.write(data)] *)
Definition write (data : pybytes) : M unit := modify (log (TcpSend data)).

(** [writer.close()] *)
Definition close : M unit :=
  modify (fun w => set_sockets (Nat.pred (sockets w)) (log TcpClose w)).

Definition smtp_verify (addr mx_host : pystr) : M (bool * Z * pystr) :=
  chosen <- get_next_sender ;;
  try_except
    (let p := peer E mx_host in
     open_connection mx_host 25 (on_connect p) ;;
     welcome <- await (on_greeting p) ;;
     if negb (Text.startswith (u"220") welcome)
     then raise (Exception (u"SMTP连接失败"))
     else
       helo_cmd <- lift (Py.encode rt (u"EHLO " ++ sender_helo chosen ++ crlf)) ;;
       write helo_cmd ;;
       await (on_ehlo_drain p) ;;
       _ <- await (on_ehlo_reply p) ;;
       mail_cmd <- lift (Py.encode rt
                           (u"MAIL FROM:<" ++ sender_email chosen ++ u">" ++ crlf)) ;;
       write mail_cmd ;;
       await (on_mail_drain p) ;;
       _ <- await (on_mail_reply p) ;;
       rcpt_cmd <- lift (Py.encode rt (u"RCPT TO:<" ++ addr ++ u">" ++ crlf)) ;;
       write rcpt_cmd ;;
       await (on_rcpt_drain p) ;;
       rcpt_response <- await (on_rcpt_reply p) ;;
       decoded <- lift (Py.decode rt rcpt_response) ;;
       let rcpt_str := Py.strip rt decoded in
       write (u"QUIT" ++ crlf) ;;
       await (on_quit_drain p) ;;
       close ;;
       try_except (wait_closed (on_wait_closed p)) (fun _ => ret tt) ;;
       (* try: status_code = int(rcpt_str[:3])  except: status_code = 500 *)
       let code :=
         match Py.int rt (Text.slice_to 3 rcpt_str) with
         | Some n => n
         | None => 500%Z
         end in
       let valid := ((code =? 250) || (code =? 251))%Z in
       ret (valid, code, rcpt_str))
    (fun e =>
       match e with
       | TimeoutError _ => ret (false, 0%Z, u"连接超时")
       | Exception _ => ret (false, 0%Z, exn_str e)
       end).

(** [VerificationResult(...)] with the defaults of the dataclass filled
    in; [__post_init__] stamps it with [datetime.now()]. *)
Definition new_result (addr : pystr) (valid : bool) (code : option Z)
    (response : pystr) (mx : list pystr) (err : option pystr)
  : VerificationResult :=
  {| email := addr;
     is_valid := valid;
     status_code := code;
     server_response := response;
     mx_records := mx;
     verification_time := (time_end E - time_start E)%Z;
     timestamp := clock_result E;
     error_message := err;
     cached := false |}.

Definition verify_email (addr : pystr) : M VerificationResult :=
  cached_result <- get_cached_result addr ;;
  match cached_result with
  | Some hit => ret hit
  | None =>
      if negb (is_valid_email_format addr)
      then
        let result :=
          new_result addr false None [] [] (Some (u"邮箱格式无效")) in
        cache_result result ;;
        ret result
      else
        match nth_error (Text.split 64 addr) 1 with
        | None => raise (Exception (u"list index out of range"))
        | Some piece =>
            let domain := Py.lower rt piece in
            mx <- get_mx_records domain ;;
            match mx with
            | [] =>
                let result :=
                  new_result addr false None (u"未找到MX记录") []
                    (Some (u"域名没有MX记录")) in
                cache_result result ;;
                ret result
            | primary_mx :: _ =>
                result <-
                  try_except
                    (verdict <- smtp_verify addr primary_mx ;;
                     let '(valid, code, response) := verdict in
                     ret (new_result addr valid (Some code) response mx None))
                    (fun e =>
                       ret (new_result addr false None [] mx
                              (Some (exn_str e)))) ;;
                cache_result result ;;
                ret result
            end
        end
  end.

End Verifier.

(** ** Vocabulary of the statements *)

(** The environment with one of the store's faults set or cleared. *)
Definition with_select_fault (f : option exn) (E : env) : env :=
  {| cache_hours := cache_hours E;
     clock_lookup := clock_lookup E; clock_result := clock_result E;
     time_start := time_start E; time_end := time_end E;
     select_fault := f;
     upsert_fault := upsert_fault E; commit_fault := commit_fault E;
     dns := dns E; peer := peer E |}.
Definition with_upsert_fault (f : option exn) (E : env) : env :=
  {| cache_hours := cache_hours E;
     clock_lookup := clock_lookup E; clock_result := clock_result E;
     time_start := time_start E; time_end := time_end E;
     select_fault := select_fault E;
     upsert_fault := f; commit_fault := commit_fault E;
     dns := dns E; peer := peer E |}.
Definition with_commit_fault (f : option exn) (E : env) : env :=
  {| cache_hours := cache_hours E;
     clock_lookup := clock_lookup E; clock_result := clock_result E;
     time_start := time_start E; time_end := time_end E;
     select_fault := select_fault E;
     upsert_fault := upsert_fault E; commit_fault := f;
     dns := dns E; peer := peer E |}.

(** The cut-off of one lookup: [datetime.now() - self.cache_duration],
    and whether it is a date the interpreter can hold. *)
Definition cutoff (E : env) : Z := (clock_lookup E - cache_duration E)%Z.

Definition cutoff_is_date (E : env) : bool :=
  ((0 <=? cutoff E) && (cutoff E <=? datetime_max))%Z.

(** The statements of one lookup: none when the cut-off is no date. *)
Definition lookup_events (E : env) (addr : pystr) : list event :=
  if cutoff_is_date E then [SqlSelect addr (cutoff E)] else [].

(** The world after [get_cached_result]. *)
Definition looked_up (E : env) (addr : pystr) (w : world) : world :=
  if cutoff_is_date E then log (SqlSelect addr (cutoff E)) w else w.

(** What a lookup finds: nothing when the cut-off is no date or the
    statement fails, else the row of the address that is younger than
    the cut-off. *)
Definition cache_lookup (E : env) (addr : pystr) (t : list row)
  : option VerificationResult :=
  if cutoff_is_date E
  then
    match select_fault E with
    | Some _ => None
    | None => option_map result_of_row (select_fresh addr (cutoff E) t)
    end
  else None.

(** The table after a write, as the connection of the verifier sees it:
    untouched when the statement fails or the status code is no
    [INTEGER] of the store. *)
Definition stored_after (E : env) (r : row) (t : list row) : list row :=
  match upsert_fault E with
  | Some _ => t
  | None => if row_binds r then insert_or_replace r t else t
  end.

(** The primary key holds: no two rows share an address. *)
Definition keys_unique (t : list row) : Prop := NoDup (map row_email t).

(** The rows written by the statements of a trace, in order. *)
Definition upserts (t : list event) : list row :=
  flat_map (fun e => match e with SqlUpsert r => [r] | _ => [] end) t.

(** The events of a probe: what goes over the connection to a mail host. *)
Definition is_network (e : event) : bool :=
  match e with
  | TcpConnect _ _ | TcpSend _ | TcpClose => true
  | SqlSelect _ _ | SqlUpsert _ | DnsQuery _ => false
  end.

(** The rows of a table filed under one address. *)
Definition rows_for (key : pystr) (t : list row) : list row :=
  filter (fun r => Text.eqb (row_email r) key) t.

(** The domain a well-formed address is resolved under:
    [email.split('@')[1].lower()]. *)
Definition domain_of (rt : runtime) (addr : pystr) : pystr :=
  match nth_error (Text.split 64 addr) 1 with
  | Some piece => Py.lower rt piece
  | None => []
  end.

(** The host names [get_mx_records] hands back for a domain. *)
Definition mx_hosts (E : env) (domain : pystr) : list pystr :=
  match dns E domain with
  | inr answer =>
      map (fun mx => Text.rstrip (N.eqb 46) (exchange mx))
        (sorted preference answer)
  | inl _ => []
  end.

(** The outcome [verify_email] builds from what the probe did. *)
Definition probe_outcome (E : env) (addr : pystr) (mx : list pystr)
    (r : outcome (bool * Z * pystr)) : VerificationResult :=
  match r with
  | Return (valid, code, response) =>
      new_result E addr valid (Some code) response mx None
  | Raise e => new_result E addr false None [] mx (Some (exn_str e))
  end.

(** The outcome of a call that the cache does not serve. *)
Definition miss_result (rt : runtime) (E : env) (addr : pystr) (w : world)
  : VerificationResult :=
  if is_valid_email_format addr
  then
    match mx_hosts E (domain_of rt addr) with
    | [] =>
        new_result E addr false None (u"未找到MX记录") []
          (Some (u"域名没有MX记录"))
    | primary_mx :: rest =>
        probe_outcome E addr (primary_mx :: rest)
          (fst (smtp_verify rt E addr primary_mx w))
    end
  else new_result E addr false None [] [] (Some (u"邮箱格式无效")).

(** The world in which a call that the cache does not serve comes to
    [cache_result]: after the lookup, the query to the resolver for an
    address that passes the format check, and the probe of the first
    host when there is one. *)
Definition miss_world (rt : runtime) (E : env) (addr : pystr) (w : world)
  : world :=
  if is_valid_email_format addr
  then
    match mx_hosts E (domain_of rt addr) with
    | [] => log (DnsQuery (domain_of rt addr)) (looked_up E addr w)
    | primary_mx :: _ =>
        snd (smtp_verify rt E addr primary_mx
               (log (DnsQuery (domain_of rt addr)) (looked_up E addr w)))
    end
  else looked_up E addr w.

(** The world after [cache_result]. *)
Definition persist (E : env) (result : VerificationResult) (w : world)
  : world :=
  set_table (stored_after E (row_of_result result) (table w))
    (log (SqlUpsert (row_of_result result)) w).

Definition succeeded {A} (r : exn + A) : bool :=
  match r with
  | inr _ => true
  | inl _ => false
  end.

Definition arrived {A} (r : io A) : bool :=
  match r with
  | Done _ => true
  | Failed _ | Lost _ => false
  end.



(** The command that carries the candidate address. *)
Definition rcpt_command (addr : pystr) : pystr :=
  u"RCPT TO:<" ++ addr ++ u">" ++ crlf.

(** The exchange with the host runs through every step: the connection
    opens, the greeting starts with 220, every command is encoded and
    flushed, every reply arrives, and the reply to RCPT TO decodes. *)
Definition exchange_completes (rt : runtime) (E : env)
    (addr mx_host : pystr) : bool :=
  let p := peer E mx_host in
  arrived (on_connect p)
  && match on_greeting p with
     | Done welcome => Text.startswith (u"220") welcome
     | Failed _ | Lost _ => false
     end
  && arrived (on_ehlo_drain p) && arrived (on_ehlo_reply p)
  && arrived (on_mail_drain p) && arrived (on_mail_reply p)
  && succeeded (Py.encode rt (rcpt_command addr))
  && arrived (on_rcpt_drain p)
  && match on_rcpt_reply p with
     | Done raw => succeeded (Py.decode rt raw)
     | Failed _ | Lost _ => false
     end
  && arrived (on_quit_drain p).

(** The reply to RCPT TO as [smtp_verify] keeps it: decoded, with the
    white space around it removed. *)
Definition rcpt_reply (rt : runtime) (E : env) (mx_host : pystr) : pystr :=
  match on_rcpt_reply (peer E mx_host) with
  | Done raw =>
      match Py.decode rt raw with
      | inr decoded => Py.strip rt decoded
      | inl _ => []
      end
  | Failed _ | Lost _ => []
  end.

(** [n] calls of [get_next_sender] in a row, with what each returned. *)
Fixpoint next_senders (n : nat) (w : world) : list (outcome sender) * world :=
  match n with
  | O => ([], w)
  | S n' =>
      let (r, w') := get_next_sender w in
      let (rs, w'') := next_senders n' w' in
      (r :: rs, w'')
  end.

(** *** The shape of an address *)

Definition is_ldh (c : N) : bool := is_letter c || is_digit c || (c =? 45)%N.

Definition is_nil {A} (l : list A) : bool :=
  match l with
  | [] => true
  | _ :: _ => false
  end.

(** The shape as section 4.1 of the specification words it: a local part
    of one or more safe characters, an at sign, and a domain of one or
    more labels of letters, digits and hyphens, separated by dots and
    followed by a last label of two or more letters.  Whether a label may
    be empty is not said; [empty_labels] settles it either way. *)
Definition spec_label (empty_labels : bool) (l : pystr) : bool :=
  forallb is_ldh l && (empty_labels || negb (is_nil l)).

Definition spec_domain (empty_labels : bool) (d : pystr) : bool :=
  match rev (Text.split 46 d) with
  | [] => false
  | final :: before =>
      (2 <=? List.length final)%nat && forallb is_letter final
      && negb (is_nil before) && forallb (spec_label empty_labels) before
  end.

Definition spec_well_formed (empty_labels : bool) (s : pystr) : bool :=
  match Text.split 64 s with
  | [local; domain] =>
      negb (is_nil local) && forallb local_class local
      && spec_domain empty_labels domain
  | _ => false
  end.

(** The shape the pattern admits: the domain is any run of letters,
    digits, hyphens and dots, then a dot, then the last label. *)
Definition address_shape (s : pystr) : Prop :=
  exists local run final,
    s = local ++ [64%N] ++ run ++ [46%N] ++ final
    /\ local <> [] /\ forallb local_class local = true
    /\ run <> [] /\ forallb domain_class run = true
    /\ 2 <= List.length final /\ forallb is_letter final = true.

(** *** Fixtures *)

(** A runtime that knows ASCII only. *)
Definition ascii_runtime : runtime :=
  {| rt_isspace := fun _ => false;
     rt_int := fun _ => None;
     rt_decode := fun _ => inl (Exception (u"codec cannot decode"));
     rt_encode := fun _ => inl (Exception (u"codec cannot encode"));
     rt_lower := fun s => s |}.

(** A mail host that answers every step, with a given reply to RCPT TO. *)
Definition answering_peer (greeting rcpt : pybytes) : smtp_peer :=
  {| on_connect := Done tt;
     on_greeting := Done greeting;
     on_ehlo_drain := Done tt;
     on_ehlo_reply := Done (u"250 ok" ++ crlf);
     on_mail_drain := Done tt;
     on_mail_reply := Done (u"250 ok" ++ crlf);
     on_rcpt_drain := Done tt;
     on_rcpt_reply := Done rcpt;
     on_quit_drain := Done tt;
     on_wait_closed := Done tt |}.

(** An environment with a working store, one answer of the resolver for
    every domain and one mail host behind every name, at an instant of
    the year 2024. *)
Definition sample_env (answer : exn + list mx_rdata) (p : smtp_peer) : env :=
  {| cache_hours := 24;
     clock_lookup := 63865000000000000;
     clock_result := 63865000000000001;
     time_start := 5;
     time_end := 9;
     select_fault := None;
     upsert_fault := None;
     commit_fault := None;
     dns := fun _ => answer;
     peer := fun _ => p |}.

Definition sample_answer : list mx_rdata :=
  [ {| preference := 20; exchange := u"mx2.example.org." |};
    {| preference := 10; exchange := u"mx1.example.org." |};
    {| preference := 10; exchange := u"mx0.example.org." |} ].

(** A host that accepts the recipient, one that turns it down, and one
    that opens the connection only to greet with 554. *)
Definition accepting_env : env :=
  sample_env (inr sample_answer)
    (answering_peer (u"220 mx1.example.org ESMTP" ++ crlf)
       (u"250 2.1.5 Recipient OK" ++ crlf)).

Definition rejecting_env : env :=
  sample_env (inr sample_answer)
    (answering_peer (u"220 mx1.example.org ESMTP" ++ crlf)
       (u"550 5.1.1 Unknown user" ++ crlf)).

Definition refusing_env : env :=
  sample_env (inr sample_answer)
    (answering_peer (u"554 5.7.1 Service unavailable" ++ crlf) []).

(** A resolver that finds no such domain. *)
Definition no_mx_env : env :=
  sample_env (inl (Exception (u"The DNS query name does not exist")))
    (answering_peer (u"220 mx1.example.org ESMTP" ++ crlf)
       (u"250 2.1.5 Recipient OK" ++ crlf)).

(** A row younger than the cache duration of the sample environments,
    and one older. *)
Definition fresh_row : row :=
  {| row_email := u"not-an-address";
     row_is_valid := false;
     row_status_code := None;
     row_server_response := [];
     row_mx_records := [];
     row_verification_time := 4;
     row_timestamp := 63864999999999900;
     row_error_message := Some (u"邮箱格式无效") |}.

Definition stale_row : row :=
  {| row_email := u"user@example.org";
     row_is_valid := true;
     row_status_code := Some 250%Z;
     row_server_response := u"250 2.1.5 Recipient OK";
     row_mx_records := [u"mx1.example.org"];
     row_verification_time := 4;
     row_timestamp := 63864910000000000;
     row_error_message := None |}.

(** ** Statistics and the routes of [main.py] *)

(** The values a [dict] of the source holds.  A [float] is kept in the
    unit of [verification_time]. *)
Inductive scalar :=
| JNull
| JBool (b : bool)
| JInt (z : Z)
| JFloat (z : Z)
| JStr (s : pystr)
| JStrings (items : list pystr).

Definition dict := list (pystr * scalar).

(** A field of the body of a route: a value, or a [dict] of its own. *)
Inductive field :=
| Plain (v : scalar)
| Nested (d : dict).

(** The end of a route: the [dict] returned, or the [HTTPException]
    raised to the framework. *)
Inductive response :=
| Returned (body : list (pystr * field))
| HTTPException (status : Z) (detail : pystr).

(** What one call of [get_stats] reads from outside: [datetime.now()] and
    whether each of its three statements fails. *)
Record stats_env := {
  stats_clock : Z;
  count_fault : option exn;
  count_valid_fault : option exn;
  count_recent_fault : option exn
}.

Definition json_of_status (code : option Z) : scalar :=
  match code with
  | Some n => JInt n
  | None => JNull
  end.

Section Routes.
Variable rt : runtime.
Variable E : env.
Variable SE : stats_env.
(** The text of [valid/total*100] with one decimal: the division and
    the rounding are the interpreter's floating point and are taken as
    they come. *)
Variable format_rate : Z -> Z -> pystr.

(** One counting statement and its [fetchone()[0]].  The counting
    statements only read; the trace keeps the statements of
    [verify_email]. *)
Definition count_rows (keep : row -> bool) (fault : option exn) : M Z :=
  match fault with
  | Some e => raise e
  | None => get (fun w => Z.of_nat (List.length (filter keep (table w))))
  end.

Definition get_stats : M dict :=
  try_except
    (total <- count_rows (fun _ => true) (count_fault SE) ;;
     valid <- count_rows row_is_valid (count_valid_fault SE) ;;
     let cutoff_time := (stats_clock SE - 24 * microseconds_per_hour)%Z in
     recent <- count_rows (fun r => (cutoff_time <? row_timestamp r)%Z)
                 (count_recent_fault SE) ;;
     ret [ (u"total_verifications", JInt total);
           (u"valid_emails", JInt valid);
           (u"invalid_emails", JInt (total - valid));
           (u"recent_24h", JInt recent);
           (u"success_rate",
            JStr (if (0 <? total)%Z
                  then format_rate valid total ++ u"%"
                  else u"0%")) ])
    (fun _ => ret []).

(** [GET /] *)
Definition root : M response :=
  ret (Returned [ (u"service", Plain (JStr (u"个人邮件验证API")));
                  (u"version", Plain (JStr (u"1.0.0")));
                  (u"status", Plain (JStr (u"运行中")));
                  (u"platform", Plain (JStr (u"Railway"))) ]).

(** [GET /health] *)
Definition health_check : M response :=
  try_except
    (stats <- get_stats ;;
     ret (Returned [ (u"status", Plain (JStr (u"healthy")));
                     (u"database", Plain (JStr (u"connected")));
                     (u"stats", Nested stats) ]))
    (fun e =>
       ret (HTTPException 503 (u"Service unhealthy: " ++ exn_str e))).

(** [POST /verify] *)
Definition verify_email_route (request_email : pystr) : M response :=
  try_except
    (result <- verify_email rt E request_email ;;
     ret (Returned
            [ (u"email", Plain (JStr (email result)));
              (u"is_valid", Plain (JBool (is_valid result)));
              (u"status_code", Plain (json_of_status (status_code result)));
              (u"server_response", Plain (JStr (server_response result)));
              (u"verification_time",
               Plain (JFloat (verification_time result)));
              (u"cached", Plain (JBool (cached result)));
              (u"mx_records",
               Plain (JStrings (firstn 3 (mx_records result)))) ]))
    (fun e =>
       ret (HTTPException 500 (u"Verification failed: " ++ exn_str e))).

(** [GET /stats] *)
Definition get_stats_route : M response :=
  try_except
    (stats <- get_stats ;;
     ret (Returned [ (u"stats", Nested stats) ]))
    (fun e =>
       ret (HTTPException 500 (u"Failed to get stats: " ++ exn_str e))).

End Routes.

(** *** Vocabulary of the further statements *)

(** Reading a field of a [dict]. *)
Fixpoint dict_get {V} (key : pystr) (fields : list (pystr * V)) : option V :=
  match fields with
  | [] => None
  | (k, v) :: rest => if Text.eqb k key then Some v else dict_get key rest
  end.

(** What a probe puts on the wire when nothing breaks off, in order. *)
Definition smtp_script (rt : runtime) (chosen : sender)
    (addr mx_host : pystr) : list event :=
  [ TcpConnect mx_host 25;
    TcpSend (u"EHLO " ++ sender_helo chosen ++ crlf);
    TcpSend (u"MAIL FROM:<" ++ sender_email chosen ++ u">" ++ crlf);
    TcpSend (match Py.encode rt (u"RCPT TO:<" ++ addr ++ u">" ++ crlf) with
             | inr data => data
             | inl _ => []
             end);
    TcpSend (u"QUIT" ++ crlf);
    TcpClose ].

Definition is_connect (e : event) : bool :=
  match e with
  | TcpConnect _ _ => true
  | _ => false
  end.

(** A verdict and a code that agree: true exactly with 250 or 251. *)
Definition verdict_agrees (valid : bool) (code : option Z) : Prop :=
  valid = true <-> code = Some 250%Z \/ code = Some 251%Z.

Definition row_agrees (r : row) : Prop :=
  verdict_agrees (row_is_valid r) (row_status_code r).

(** Whether a call of [verify_email] gets as far as the probe. *)
Definition reaches_probe (rt : runtime) (E : env) (addr : pystr) (w : world)
  : bool :=
  match fst (get_cached_result E addr w) with
  | Return None =>
      is_valid_email_format addr
      && match fst (get_mx_records E (domain_of rt addr) w) with
         | Return (_ :: _) => true
         | _ => false
         end
  | _ => false
  end.

(** The name [get_mx_records] returns for a record. *)
Definition host_of (mx : mx_rdata) : pystr :=
  Text.rstrip (N.eqb 46) (exchange mx).

(** A record whose preference no record of the answer undercuts. *)
Definition is_least (answer : list mx_rdata) (mx : mx_rdata) : bool :=
  forallb (fun other => (preference mx <=? preference other)%N) answer.

(** Every character class of a pattern gives the same answer before and
    after [f]. *)
Fixpoint respects (f : N -> N) (r : Re.regex) : Prop :=
  match r with
  | Re.Void | Re.Eps => True
  | Re.Class p => forall c, p (f c) = p c
  | Re.Seq r1 r2 | Re.Alt r1 r2 => respects f r1 /\ respects f r2
  | Re.Star r1 => respects f r1
  end.


(** The part after the at sign of an accepted address: characters of the
    domain class, and at most a line feed at the very end. *)
Definition after_at (c : N) : bool := domain_class c || (c =? 10)%N.

(** A store that answers every count. *)
Definition working_stats (now : Z) : stats_env :=
  {| stats_clock := now;
     count_fault := None;
     count_valid_fault := None;
     count_recent_fault := None |}.

(** The row a call for [user@example.org] leaves behind in
    [accepting_env]. *)
Definition accepted_row : row :=
  {| row_email := u"user@example.org";
     row_is_valid := true;
     row_status_code := Some 250%Z;
     row_server_response := u"250 2.1.5 Recipient OK";
     row_mx_records :=
       [u"mx1.example.org"; u"mx0.example.org"; u"mx2.example.org"];
     row_verification_time := 4;
     row_timestamp := 63865000000000001;
     row_error_message := None |}.

(** The same host a day and more after the sample clock. *)
Definition next_day_env : env :=
  {| cache_hours := 24;
     clock_lookup := 63865090000000000;
     clock_result := 63865090000000001;
     time_start := 5;
     time_end := 9;
     select_fault := None;
     upsert_fault := None;
     commit_fault := None;
     dns := fun _ => inr sample_answer;
     peer := fun _ =>
       answering_peer (u"220 mx1.example.org ESMTP" ++ crlf)
         (u"550 5.1.1 Unknown user" ++ crlf) |}.

(** The accepting host under a cache duration of twenty million hours,
    some 2281 years: more than lie between the year 1 and the sample
    clock. *)
Definition long_cache_env : env :=
  {| cache_hours := 20000000;
     clock_lookup := 63865000000000000;
     clock_result := 63865000000000001;
     time_start := 5;
     time_end := 9;
     select_fault := None;
     upsert_fault := None;
     commit_fault := None;
     dns := fun _ => inr sample_answer;
     peer := fun _ =>
       answering_peer (u"220 mx1.example.org ESMTP" ++ crlf)
         (u"250 2.1.5 Recipient OK" ++ crlf) |}.

(** ** Proof tools *)

Ltac unfold_monad :=
  cbv beta iota zeta delta
    [bind try_except lift modify get raise ret
     get_next_sender open_connection await wait_closed write close].

(** A character class that holds, as bounds on the character. *)
Ltac class_bounds H :=
  repeat (apply orb_true_iff in H as [H | H]);
  repeat rewrite ?andb_true_iff, ?N.leb_le, ?N.eqb_eq in H.

(** One case analysis on what the outside answers at the next step. *)
Ltac case_step :=
  match goal with
  | |- context [match ?x with _ => _ end] =>
      lazymatch type of x with
      | sum _ _ => idtac
      | io _ => idtac
      | option _ => idtac
      | bool => idtac
      | exn => idtac
      end;
      destruct x eqn:?; cbv beta iota zeta
  end.

(** * Facts *)

(** ** Text *)

Module TextFacts.
Import Text.

Lemma eqb_eq a b : eqb a b = true <-> a = b.
Proof.
  unfold eqb. destruct (list_eq_dec N.eq_dec a b); split; congruence.
Qed.

Lemma eqb_refl a : eqb a a = true.
Proof. now apply eqb_eq. Qed.

Lemma eqb_neq a b : eqb a b = false <-> a <> b.
Proof.
  unfold eqb. destruct (list_eq_dec N.eq_dec a b); split; congruence.
Qed.

Lemma split_nonempty sep s : split sep s <> [].
Proof.
  destruct s as [|c s]; simpl; [discriminate|].
  destruct (c =? sep)%N; [discriminate|].
  destruct (split sep s); discriminate.
Qed.

(** A piece that holds no separator is cut off whole. *)
Lemma split_app_sep sep a b :
  forallb (fun c => negb (c =? sep)%N) a = true ->
  split sep (a ++ sep :: b) = a :: split sep b.
Proof.
  induction a as [|c a IH]; simpl; intro H.
  - now rewrite N.eqb_refl.
  - apply andb_true_iff in H as [Hc Ha].
    apply negb_true_iff in Hc. rewrite Hc, (IH Ha). reflexivity.
Qed.

Lemma split_no_sep sep a :
  forallb (fun c => negb (c =? sep)%N) a = true -> split sep a = [a].
Proof.
  induction a as [|c a IH]; simpl; intro H; [reflexivity|].
  apply andb_true_iff in H as [Hc Ha].
  apply negb_true_iff in Hc. rewrite Hc, (IH Ha). reflexivity.
Qed.

(** [rstrip] takes a run of dropped characters off the end and nothing
    else, and what is left does not end in one. *)
Lemma rstrip_decompose drop s :
  exists tail, s = rstrip drop s ++ tail /\ forallb drop tail = true.
Proof.
  induction s as [|c s (tail & Heq & Hall)]; simpl.
  - exists []. split; reflexivity.
  - destruct (rstrip drop s) as [|k kept] eqn:Hr.
    + destruct (drop c) eqn:Hc.
      * exists (c :: s). split; [reflexivity|].
        simpl in Heq. subst tail. simpl. now rewrite Hc.
      * exists s. split; [reflexivity|].
        simpl in Heq. now subst tail.
    + exists tail. split; [|assumption].
      simpl. now rewrite Heq at 1.
Qed.

Lemma rstrip_last drop s d : drop (last (rstrip drop s) d) = true -> rstrip drop s = [].
Proof.
  induction s as [|c s IH]; simpl; [reflexivity|].
  destruct (rstrip drop s) as [|k kept] eqn:Hr.
  - destruct (drop c) eqn:Hc; [reflexivity|].
    simpl. congruence.
  - intro H. change (last (c :: k :: kept) d) with (last (k :: kept) d) in H.
    apply IH in H. discriminate.
Qed.

End TextFacts.

(** ** The matcher decides the language *)

Module ReFacts.
Import Re.

Lemma nullable_matches r : nullable r = true <-> matches r [].
Proof.
  induction r; simpl.
  - split; intro H; [discriminate | inversion H].
  - split; intro H; [constructor | reflexivity].
  - split; intro H; [discriminate | inversion H].
  - rewrite andb_true_iff, IHr1, IHr2. split.
    + intros [H1 H2]. change (@nil N) with (@nil N ++ @nil N).
      now constructor.
    + intro H. inversion H; subst.
      match goal with
      | Heq : _ ++ _ = [] |- _ => apply app_eq_nil in Heq as [-> ->]
      end. tauto.
  - rewrite orb_true_iff, IHr1, IHr2. split.
    + intros [H | H]; [apply MAltL | apply MAltR]; assumption.
    + intro H. inversion H; subst; tauto.
  - split; intro H; [constructor | reflexivity].
Qed.

Lemma deriv_sound c r : forall s, matches (deriv c r) s -> matches r (c :: s).
Proof.
  induction r; simpl; intros s H; try (inversion H; fail).
  - destruct (p c) eqn:Hp; inversion H; subst. now constructor.
  - destruct (nullable r1) eqn:Hn.
    + inversion H; subst.
      * match goal with
        | H1 : matches (Seq _ _) _ |- _ => inversion H1; subst
        end.
        change (c :: ?a ++ ?b) with ((c :: a) ++ b). constructor; auto.
      * change (c :: s) with ([] ++ c :: s). constructor; auto.
        now apply nullable_matches.
    + inversion H; subst.
      change (c :: ?a ++ ?b) with ((c :: a) ++ b). constructor; auto.
  - inversion H; subst; [apply MAltL | apply MAltR]; auto.
  - inversion H; subst.
    change (c :: ?a ++ ?b) with ((c :: a) ++ b). constructor; auto.
Qed.

Lemma deriv_complete c r s : matches r (c :: s) -> matches (deriv c r) s.
Proof.
  intro H. remember (c :: s) as cs eqn:Hcs. revert s Hcs.
  induction H as [| p c0 Hp | r1 r2 s1 s2 H1 IH1 H2 IH2 | r1 r2 s0 H1 IH1
                 | r1 r2 s0 H2 IH2 | | r0 s1 s2 H1 IH1 H2 IH2];
    intros t Hcs; simpl; try discriminate.
  - injection Hcs as -> <-. rewrite Hp. constructor.
  - destruct s1 as [|c1 s1].
    + simpl in Hcs. subst s2.
      assert (Hn : nullable r1 = true) by now apply nullable_matches.
      rewrite Hn. apply MAltR. auto.
    + simpl in Hcs. injection Hcs as -> <-.
      destruct (nullable r1); [apply MAltL |]; constructor; auto.
  - apply MAltL; auto.
  - apply MAltR; auto.
  - destruct s1 as [|c1 s1].
    + simpl in Hcs. apply IH2 in Hcs. exact Hcs.
    + simpl in Hcs. injection Hcs as -> <-. constructor; auto.
Qed.

Lemma fullmatch_matches s : forall r, fullmatch r s = true <-> matches r s.
Proof.
  induction s as [|c s IH]; intro r; simpl.
  - apply nullable_matches.
  - rewrite IH. split; [apply deriv_sound | apply deriv_complete].
Qed.

Lemma chop_newline_cons c c' s :
  chop_newline (c :: c' :: s) = option_map (cons c) (chop_newline (c' :: s)).
Proof. reflexivity. Qed.

Lemma chop_newline_spec s : forall t, chop_newline s = Some t <-> s = t ++ [10%N].
Proof.
  induction s as [|c s IH]; intro t.
  - simpl. split; [discriminate | destruct t; discriminate].
  - destruct s as [|c' s'].
    + simpl. destruct (N.eqb_spec c 10) as [-> | Hne]; split; intro H.
      * now injection H as <-.
      * destruct t as [|? [|? ?]]; simpl in H; now try discriminate.
      * discriminate.
      * destruct t as [|? [|? ?]]; simpl in H; try discriminate. congruence.
    + rewrite chop_newline_cons. split; intro H.
      * destruct (chop_newline (c' :: s')) as [t'|] eqn:Hc; [|discriminate].
        injection H as <-. destruct (IH t') as [IH1 _].
        simpl. now rewrite (IH1 eq_refl).
      * destruct t as [|c0 t0]; [discriminate|].
        simpl in H. injection H as -> H. apply IH in H. now rewrite H.
Qed.

Lemma chop_newline_last s : chop_newline s = None <-> last s 0%N <> 10%N.
Proof.
  induction s as [|c s IH].
  - simpl. split; [intros _; discriminate | reflexivity].
  - destruct s as [|c' s'].
    + simpl. destruct (N.eqb_spec c 10); split; congruence.
    + change (last (c :: c' :: s') 0%N) with (last (c' :: s') 0%N).
      rewrite <- IH, chop_newline_cons.
      destruct (chop_newline (c' :: s')); simpl; split; intro H;
        try discriminate; reflexivity.
Qed.

Lemma matches_class p s :
  matches (Class p) s <-> exists c, s = [c] /\ p c = true.
Proof.
  split.
  - intro H. inversion H; subst. eauto.
  - intros (c & -> & Hc). now constructor.
Qed.

Lemma matches_star_class p s :
  matches (Star (Class p)) s <-> forallb p s = true.
Proof.
  split.
  - intro H. remember (Star (Class p)) as r eqn:Hr.
    induction H as [| | | | | | r0 s1 s2 H1 _ H2 IH2];
      try discriminate; auto.
    injection Hr as ->. apply matches_class in H1 as (c & -> & Hc).
    simpl. rewrite Hc. auto.
  - induction s as [|c s IH]; simpl; intro H.
    + constructor.
    + apply andb_true_iff in H as [Hc Hs].
      change (c :: s) with ([c] ++ s). constructor; auto. now constructor.
Qed.

Lemma matches_seq r1 r2 s :
  matches (Seq r1 r2) s <->
  exists s1 s2, s = s1 ++ s2 /\ matches r1 s1 /\ matches r2 s2.
Proof.
  split.
  - intro H. inversion H; subst. eauto.
  - intros (s1 & s2 & -> & H1 & H2). now constructor.
Qed.

Lemma matches_plus_class p s :
  matches (Plus (Class p)) s <-> s <> [] /\ forallb p s = true.
Proof.
  unfold Plus. rewrite matches_seq. split.
  - intros (s1 & s2 & -> & H1 & H2).
    apply matches_class in H1 as (c & -> & Hc).
    apply matches_star_class in H2. simpl. rewrite Hc, H2.
    split; [discriminate | reflexivity].
  - intros [Hne Hall]. destruct s as [|c s]; [congruence|].
    simpl in Hall. apply andb_true_iff in Hall as [Hc Hs].
    exists [c], s. repeat split.
    + apply matches_class; eauto.
    + now apply matches_star_class.
Qed.

Lemma matches_lit c s : matches (Lit c) s <-> s = [c].
Proof.
  unfold Lit. rewrite matches_class. split.
  - intros (c' & -> & Hc). apply N.eqb_eq in Hc. now subst.
  - intros ->. exists c. split; [reflexivity | apply N.eqb_refl].
Qed.

Lemma matches_atleast2_class p s :
  matches (AtLeast2 (Class p)) s <-> 2 <= List.length s /\ forallb p s = true.
Proof.
  unfold AtLeast2. rewrite matches_seq. split.
  - intros (s1 & s2 & -> & H1 & H2).
    apply matches_class in H1 as (c & -> & Hc).
    apply (matches_plus_class p) in H2 as [Hne Hall].
    simpl. rewrite Hc, Hall. split; [|reflexivity].
    destruct s2; [congruence | simpl; lia].
  - intros [Hlen Hall]. destruct s as [|c s]; [simpl in Hlen; lia|].
    simpl in Hall. apply andb_true_iff in Hall as [Hc Hs].
    exists [c], s. repeat split.
    + apply matches_class; eauto.
    + apply (matches_plus_class p). split; [|assumption].
      destruct s; [simpl in Hlen; lia | discriminate].
Qed.

End ReFacts.

(** ** The address validator *)

Lemma local_class_not_at c : local_class c = true -> negb (c =? 64)%N = true.
Proof.
  intro H. apply negb_true_iff. apply N.eqb_neq. intros ->.
  vm_compute in H. discriminate.
Qed.

Lemma domain_class_not_at c : domain_class c = true -> negb (c =? 64)%N = true.
Proof.
  intro H. apply negb_true_iff. apply N.eqb_neq. intros ->.
  vm_compute in H. discriminate.
Qed.

Lemma is_letter_not_newline c : is_letter c = true -> c <> 10%N.
Proof. intros H ->. vm_compute in H. discriminate. Qed.

Lemma forallb_impl {A} (p q : A -> bool) l :
  (forall a, p a = true -> q a = true) ->
  forallb p l = true -> forallb q l = true.
Proof.
  intros Hpq. induction l as [|a l IH]; simpl; [reflexivity|].
  intro H. apply andb_true_iff in H as [Ha Hl].
  now rewrite (Hpq a Ha), (IH Hl).
Qed.

(** The pattern between the anchors admits exactly the addresses of the
    shape above. *)
Lemma email_pattern_shape s : Re.matches email_pattern s <-> address_shape s.
Proof.
  unfold email_pattern, address_shape.
  rewrite ReFacts.matches_seq. split.
  - intros (local & s1 & -> & Hl & H1).
    apply ReFacts.matches_plus_class in Hl as [Hl1 Hl2].
    apply ReFacts.matches_seq in H1 as (at_ & s2 & -> & Hat & H2).
    apply ReFacts.matches_lit in Hat as ->.
    apply ReFacts.matches_seq in H2 as (run & s3 & -> & Hr & H3).
    apply ReFacts.matches_plus_class in Hr as [Hr1 Hr2].
    apply ReFacts.matches_seq in H3 as (dot & final & -> & Hdot & Hf).
    apply ReFacts.matches_lit in Hdot as ->.
    apply ReFacts.matches_atleast2_class in Hf as [Hf1 Hf2].
    exists local, run, final. repeat split; assumption.
  - intros (local & run & final & -> & Hl1 & Hl2 & Hr1 & Hr2 & Hf1 & Hf2).
    exists local, ([64%N] ++ run ++ [46%N] ++ final). repeat split.
    + now apply ReFacts.matches_plus_class.
    + apply ReFacts.matches_seq. exists [64%N], (run ++ [46%N] ++ final).
      repeat split; [now apply ReFacts.matches_lit|].
      apply ReFacts.matches_seq. exists run, ([46%N] ++ final).
      repeat split; [now apply ReFacts.matches_plus_class|].
      apply ReFacts.matches_seq. exists [46%N], final.
      repeat split; [now apply ReFacts.matches_lit|].
      now apply ReFacts.matches_atleast2_class.
Qed.

Lemma address_shape_last s : address_shape s -> last s 0%N <> 10%N.
Proof.
  intros (local & run & final & -> & _ & _ & _ & _ & Hlen & Hall).
  rewrite !app_assoc.
  destruct (exists_last (l := final)) as (front & c & ->).
  { destruct final; [simpl in Hlen; lia | discriminate]. }
  rewrite app_assoc, last_last.
  rewrite forallb_app in Hall. apply andb_true_iff in Hall as [_ Hc].
  simpl in Hc. rewrite andb_true_r in Hc. now apply is_letter_not_newline.
Qed.

(** What [is_valid_email_format] accepts: an address of the shape, or one
    followed by a single line feed. *)
Lemma is_valid_email_format_spec s :
  is_valid_email_format s = true <->
  address_shape s \/ exists s', s = s' ++ [10%N] /\ address_shape s'.
Proof.
  unfold is_valid_email_format, Re.match_to_dollar.
  rewrite orb_true_iff, ReFacts.fullmatch_matches, email_pattern_shape.
  split; intros [H | H]; auto.
  - destruct (Re.chop_newline s) as [s'|] eqn:Hc; [|discriminate].
    apply ReFacts.chop_newline_spec in Hc.
    apply ReFacts.fullmatch_matches, email_pattern_shape in H. eauto.
  - destruct H as (s' & -> & H). right.
    assert (Hc : Re.chop_newline (s' ++ [10%N]) = Some s')
      by now apply ReFacts.chop_newline_spec.
    rewrite Hc. now apply ReFacts.fullmatch_matches, email_pattern_shape.
Qed.

(** An address that passes the check has a piece after its at sign, so
    [email.split('@')[1]] is there. *)
Lemma well_formed_has_domain s :
  is_valid_email_format s = true ->
  exists piece, nth_error (Text.split 64 s) 1 = Some piece.
Proof.
  intro H. apply is_valid_email_format_spec in H.
  assert (Hs : exists local rest,
             s = local ++ 64%N :: rest
             /\ forallb (fun c => negb (c =? 64)%N) local = true).
  { destruct H as [H | (s' & -> & H)];
      destruct H as (local & run & final & -> & _ & Hl & _);
      exists local; eexists; (split; [|
        exact (forallb_impl _ _ _ local_class_not_at Hl)]).
    - reflexivity.
    - simpl. rewrite <- app_assoc. reflexivity. }
  destruct Hs as (local & rest & -> & Hl).
  rewrite (TextFacts.split_app_sep _ _ _ Hl).
  destruct (Text.split 64 rest) as [|piece pieces] eqn:Hp.
  - now apply TextFacts.split_nonempty in Hp.
  - exists piece. reflexivity.
Qed.

(** C4, as amended: on every string that does not end in a line feed,
    [is_valid_email_format] answers true exactly for the addresses made of
    a local part of one or more letters, digits and characters of
    [._%+-], an at sign, a run of one or more letters, digits, hyphens and
    dots, a dot, and a last label of two or more letters. *)
Theorem is_valid_email_format_shape s :
  last s 0%N <> 10%N ->
  (is_valid_email_format s = true <-> address_shape s).
Proof.
  intro Hlast. rewrite is_valid_email_format_spec. split; [|tauto].
  intros [H | (s' & -> & _)]; [assumption|].
  now rewrite last_last in Hlast.
Qed.

Lemma is_valid_email_format_shape_witness :
  last (u"user@example.org") 0%N <> 10%N
  /\ (is_valid_email_format (u"user@example.org") = true
      <-> address_shape (u"user@example.org")).
Proof.
  split.
  - vm_compute. lia.
  - apply (is_valid_email_format_shape (u"user@example.org")).
    vm_compute. lia.
Defined.

(** C4, as stated, fails both ways of reading "label": with labels that
    hold at least one character the check accepts [a@b..com], which has
    an empty label; with labels that may be empty it rejects [a@.com],
    which is an empty label, a dot and a last label. *)
Lemma spec_shape_differs :
  (is_valid_email_format (u"a@b..com") = true
   /\ spec_well_formed false (u"a@b..com") = false)
  /\ (is_valid_email_format (u"a@.com") = false
      /\ spec_well_formed true (u"a@.com") = true).
Proof. repeat split; vm_compute; reflexivity. Qed.

(** The [$] of the pattern also matches before a final line feed, so an
    address followed by one is accepted as well. *)
Example trailing_newline_accepted :
  is_valid_email_format (u"a@b.co" ++ [10%N]) = true
  /\ spec_well_formed true (u"a@b.co" ++ [10%N]) = false
  /\ spec_well_formed false (u"a@b.co" ++ [10%N]) = false.
Proof. repeat split; vm_compute; reflexivity. Qed.

Example well_formed_samples :
  is_valid_email_format (u"user.name+tag@mail.example.org") = true
  /\ is_valid_email_format (u"user@example") = false
  /\ is_valid_email_format (u"example.org") = false
  /\ is_valid_email_format (u"user@example.c") = false
  /\ is_valid_email_format (u"us er@example.org") = false
  /\ is_valid_email_format (u"a@b@example.org") = false.
Proof. repeat split; vm_compute; reflexivity. Qed.

(** ** The store *)

Section Store.
Variable E : env.

Lemma get_cached_result_run addr w :
  get_cached_result E addr w =
  (Return (cache_lookup E addr (table w)), looked_up E addr w).
Proof.
  unfold get_cached_result, execute_select, cache_lookup, looked_up,
    cutoff_is_date, cutoff, datetime_sub,
    try_except, bind, lift, modify, raise, get, ret.
  destruct (_ && _)%bool; [|reflexivity].
  destruct (select_fault E); simpl; [reflexivity|].
  destruct (select_fresh _ _ _); reflexivity.
Qed.

Lemma looked_up_trace addr w :
  trace (looked_up E addr w) = trace w ++ lookup_events E addr.
Proof.
  unfold looked_up, lookup_events.
  destruct (cutoff_is_date E); simpl; [reflexivity|].
  now rewrite app_nil_r.
Qed.

Lemma looked_up_rest addr w :
  table (looked_up E addr w) = table w
  /\ current_sender (looked_up E addr w) = current_sender w
  /\ sockets (looked_up E addr w) = sockets w.
Proof. unfold looked_up. destruct (cutoff_is_date E); now simpl. Qed.

Lemma cache_result_run o w :
  cache_result E o w =
  (Return tt,
   set_table (stored_after E (row_of_result o) (table w))
     (log (SqlUpsert (row_of_result o)) w)).
Proof.
  unfold cache_result, execute_upsert, commit, stored_after,
    try_except, bind, modify, raise, ret.
  destruct (upsert_fault E), (commit_fault E),
    (row_binds (row_of_result o)); simpl;
    destruct w; reflexivity.
Qed.

Lemma get_mx_records_run domain w :
  get_mx_records E domain w =
  (Return (mx_hosts E domain), log (DnsQuery domain) w).
Proof.
  unfold get_mx_records, resolve_mx, mx_hosts,
    try_except, bind, modify, lift, raise, ret.
  destruct (dns E domain); reflexivity.
Qed.

End Store.

(** ** The table keeps its key *)

Lemma select_fresh_some key c t r :
  select_fresh key c t = Some r ->
  In r t /\ row_email r = key /\ (c < row_timestamp r)%Z.
Proof.
  unfold select_fresh. intro H. apply find_some in H as [Hin Hb].
  apply andb_true_iff in Hb as [Hk Ht].
  apply TextFacts.eqb_eq in Hk. apply Z.ltb_lt in Ht. auto.
Qed.

Lemma select_fresh_none key c t :
  select_fresh key c t = None ->
  forall r, In r t -> row_email r = key -> ~ (c < row_timestamp r)%Z.
Proof.
  unfold select_fresh. intros H r Hin Hk Ht.
  apply (find_none _ _ H) in Hin.
  apply andb_false_iff in Hin as [Hf | Hf].
  - apply TextFacts.eqb_neq in Hf. auto.
  - apply Z.ltb_ge in Hf. lia.
Qed.

(** With the key unique, the row found is the row of the address. *)
Lemma select_fresh_unique key c t r :
  keys_unique t ->
  In r t -> row_email r = key -> (c < row_timestamp r)%Z ->
  select_fresh key c t = Some r.
Proof.
  unfold keys_unique. intros Hu Hin Hk Ht.
  destruct (select_fresh key c t) as [r'|] eqn:Hs.
  - apply select_fresh_some in Hs as (Hin' & Hk' & _).
    f_equal. clear Ht. induction t as [|x t IH]; [contradiction|].
    simpl in Hu. inversion Hu as [|? ? Hnot Hu']; subst.
    destruct Hin as [-> | Hin], Hin' as [-> | Hin']; auto.
    + exfalso. apply Hnot. rewrite <- Hk'. now apply in_map.
    + exfalso. apply Hnot. rewrite Hk'. now apply in_map.
  - exfalso. exact (select_fresh_none _ _ _ Hs r Hin Hk Ht).
Qed.

Lemma insert_or_replace_keys r t :
  keys_unique t -> keys_unique (insert_or_replace r t).
Proof.
  unfold keys_unique, insert_or_replace. intro Hu.
  rewrite map_app. simpl.
  assert (Hf : NoDup (map row_email
            (filter (fun r' => negb (Text.eqb (row_email r') (row_email r))) t))).
  { induction t as [|x t IH]; simpl; [constructor|].
    inversion Hu as [|? ? Hnot Hu']; subst.
    destruct (negb _) eqn:Hx; [|auto].
    simpl. constructor; [|auto].
    intro Hin. apply Hnot. apply in_map_iff in Hin as (y & Hy & Hin).
    apply filter_In in Hin as [Hin _]. rewrite <- Hy. now apply in_map. }
  apply NoDup_app; auto.
  - repeat constructor. auto.
  - intros k Hin [<- | []].
    apply in_map_iff in Hin as (y & Hy & Hin).
    apply filter_In in Hin as [_ Hb].
    apply negb_true_iff, TextFacts.eqb_neq in Hb. auto.
Qed.

Lemma rows_for_insert_or_replace r t :
  rows_for (row_email r) (insert_or_replace r t) = [r].
Proof.
  unfold rows_for, insert_or_replace. rewrite filter_app. simpl.
  rewrite TextFacts.eqb_refl.
  replace (filter _ (filter _ t)) with (@nil row); [reflexivity|].
  symmetry. induction t as [|x t IH]; simpl; [reflexivity|].
  destruct (Text.eqb (row_email x) (row_email r)) eqn:Hx; simpl; auto.
  now rewrite Hx.
Qed.


Lemma stored_after_keys E r t : keys_unique t -> keys_unique (stored_after E r t).
Proof.
  unfold stored_after.
  destruct (upsert_fault E), (row_binds r); auto.
  apply insert_or_replace_keys.
Qed.

(** ** The probe *)

Section Probe.
Variable rt : runtime.
Variable E : env.

(** The verdict of a probe depends on the verifier only through its
    cursor. *)
Lemma smtp_verify_cursor addr mx_host w1 w2 :
  current_sender w1 = current_sender w2 ->
  fst (smtp_verify rt E addr mx_host w1) = fst (smtp_verify rt E addr mx_host w2).
Proof.
  intro Hc. unfold smtp_verify. unfold_monad. rewrite Hc.
  repeat case_step; reflexivity.
Qed.

(** The commands built from a configured sender are plain ASCII. *)
Lemma configured_commands_encode chosen :
  In chosen sender_configs ->
  Py.encode rt (u"EHLO " ++ sender_helo chosen ++ crlf)
  = inr (u"EHLO " ++ sender_helo chosen ++ crlf)
  /\ Py.encode rt (u"MAIL FROM:<" ++ sender_email chosen ++ u">" ++ crlf)
     = inr (u"MAIL FROM:<" ++ sender_email chosen ++ u">" ++ crlf).
Proof.
  intros [<- | [<- | [<- | []]]]; split; vm_compute; reflexivity.
Qed.

(** A probe touches neither the table nor the statements sent to it. *)
Lemma smtp_verify_network_only addr mx_host w :
  let w' := snd (smtp_verify rt E addr mx_host w) in
  table w' = table w
  /\ exists events,
       trace w' = trace w ++ events /\ forallb is_network events = true.
Proof.
  unfold smtp_verify. unfold_monad.
  repeat case_step; (split; [reflexivity|]); cbn [snd trace log set_sockets set_current_sender];
    repeat rewrite <- app_assoc;
    try (eexists; split; [reflexivity | reflexivity]);
    exists []; now rewrite app_nil_r.
Qed.

End Probe.

(** The status code of a probe is a number of three digits at most, so
    the store takes it. *)
Lemma decimal_value_bound s :
  forallb Py.is_ascii_digit s = true ->
  (0 <= Py.decimal_value s < 10 ^ Z.of_nat (List.length s))%Z.
Proof.
  unfold Py.decimal_value.
  enough (H : forall acc, (0 <= acc)%Z ->
            forallb Py.is_ascii_digit s = true ->
            (0 <= fold_left (fun acc c => acc * 10 + (Z.of_N c - 48)) s acc
             < (acc + 1) * 10 ^ Z.of_nat (List.length s))%Z).
  { intro Hd. specialize (H 0%Z (Z.le_refl 0) Hd). lia. }
  induction s as [|c s IH]; intros acc Hacc Hd.
  - simpl. lia.
  - cbn [forallb] in Hd. apply andb_true_iff in Hd as [Hc Hd].
    unfold Py.is_ascii_digit, Text.in_range in Hc.
    apply andb_true_iff in Hc as [Hlo Hhi].
    apply N.leb_le in Hlo, Hhi.
    cbn [fold_left List.length].
    assert (Hacc' : (0 <= acc * 10 + (Z.of_N c - 48))%Z) by lia.
    specialize (IH _ Hacc' Hd).
    rewrite Nat2Z.inj_succ, Z.pow_succ_r by lia.
    assert (0 < 10 ^ Z.of_nat (List.length s))%Z
      by (apply Z.pow_pos_nonneg; lia).
    nia.
Qed.

Lemma int_bound rt s n :
  Py.int rt s = Some n -> (Z.abs n < 10 ^ Z.of_nat (List.length s))%Z.
Proof.
  unfold Py.int. destruct s as [|c s]; [discriminate|].
  destruct (forallb _ _) eqn:Hd.
  - intros [= <-]. pose proof (decimal_value_bound _ Hd). lia.
  - destruct (rt_int rt _) as [m|]; [|discriminate].
    destruct (Z.abs m <? _)%Z eqn:Hb; [|discriminate].
    intros [= <-]. now apply Z.ltb_lt in Hb.
Qed.

Lemma int_slice_fits rt s n :
  Py.int rt (Text.slice_to 3 s) = Some n -> fits_integer n = true.
Proof.
  intro Hi. apply int_bound in Hi.
  assert (Hlen : List.length (Text.slice_to 3 s) <= 3)
    by (unfold Text.slice_to; apply firstn_le_length).
  assert (Hpow : (10 ^ Z.of_nat (List.length (Text.slice_to 3 s))
                  <= 10 ^ 3)%Z)
    by (apply Z.pow_le_mono_r; lia).
  unfold fits_integer. apply andb_true_iff. split; apply Z.leb_le; lia.
Qed.

Lemma smtp_verify_code_fits rt E addr mx_host w :
  match fst (smtp_verify rt E addr mx_host w) with
  | Return (_, code, _) => fits_integer code = true
  | Raise _ => True
  end.
Proof.
  unfold smtp_verify. unfold_monad.
  repeat case_step.
  all: cbn [fst]; try exact I; try reflexivity.
  all: eapply int_slice_fits; eassumption.
Qed.

Lemma succeeded_inr {A} (r : exn + A) :
  succeeded r = true -> exists a, r = inr a.
Proof. destruct r; [discriminate | eauto]. Qed.

Lemma arrived_done {A} (r : io A) :
  arrived r = true -> exists a, r = Done a.
Proof. destruct r; [eauto | discriminate | discriminate]. Qed.

(** C1: when the exchange runs through every step, the probe returns the
    reply to RCPT TO (decoded and trimmed) with the code read off its
    first three characters, or 500 when they are no integer, and the
    verdict is true exactly when that code is 250 or 251; with an
    unreadable code it is false. *)
Theorem smtp_verdict_iff_accepted rt E addr mx_host w :
  current_sender w < List.length sender_configs ->
  exchange_completes rt E addr mx_host = true ->
  exists valid code w',
    smtp_verify rt E addr mx_host w
    = (Return (valid, code, rcpt_reply rt E mx_host), w')
    /\ code = match Py.int rt (Text.slice_to 3 (rcpt_reply rt E mx_host)) with
              | Some n => n
              | None => 500%Z
              end
    /\ (valid = true <-> code = 250%Z \/ code = 251%Z)
    /\ (Py.int rt (Text.slice_to 3 (rcpt_reply rt E mx_host)) = None ->
        valid = false).
Proof.
  intros Hlt Hok.
  destruct (nth_error sender_configs (current_sender w)) as [chosen|] eqn:Hn;
    [|apply nth_error_None in Hn; lia].
  destruct (configured_commands_encode rt chosen (nth_error_In _ _ Hn))
    as [Hehlo Hmail].
  unfold exchange_completes, rcpt_command in Hok. cbv zeta in Hok.
  apply andb_true_iff in Hok as [Hok Hquit].
  apply andb_true_iff in Hok as [Hok Hreply].
  apply andb_true_iff in Hok as [Hok Hrcptd].
  apply andb_true_iff in Hok as [Hok Hrcpt].
  apply andb_true_iff in Hok as [Hok Hmailr].
  apply andb_true_iff in Hok as [Hok Hmaild].
  apply andb_true_iff in Hok as [Hok Hehlor].
  apply andb_true_iff in Hok as [Hok Hehlod].
  apply andb_true_iff in Hok as [Hconn Hgreet].
  apply arrived_done in Hquit as [[] Hquit], Hrcptd as [[] Hrcptd],
    Hmailr as [mail_reply Hmailr],
    Hmaild as [[] Hmaild], Hehlor as [ehlo_reply Hehlor],
    Hehlod as [[] Hehlod], Hconn as [[] Hconn].
  apply succeeded_inr in Hrcpt as [rcpt_cmd Hrcpt].
  destruct (on_greeting (peer E mx_host)) as [welcome| |] eqn:Hg;
    [|discriminate|discriminate].
  destruct (on_rcpt_reply (peer E mx_host)) as [raw| |] eqn:Hr;
    [|discriminate|discriminate].
  apply succeeded_inr in Hreply as [decoded Hdec].
  unfold smtp_verify, rcpt_reply. unfold_monad.
  rewrite Hn. cbv beta iota zeta.
  rewrite Hconn, Hg. cbv beta iota zeta.
  rewrite Hgreet. cbv beta iota zeta delta [negb].
  rewrite Hehlo, Hehlod, Hehlor, Hmail, Hmaild, Hmailr, Hrcpt, Hrcptd, Hr,
    Hdec, Hquit.
  cbv beta iota zeta.
  destruct (on_wait_closed (peer E mx_host)) as [[] | e | e];
    cbv beta iota zeta.
  all: do 3 eexists; split; [reflexivity|]; split; [reflexivity|].
  all: destruct (Py.int rt (Text.slice_to 3 (Py.strip rt decoded)));
    (split; [rewrite orb_true_iff, !Z.eqb_eq; tauto |]);
    intros [=]; reflexivity.
Qed.

Lemma smtp_verdict_iff_accepted_witness :
  exists valid code w',
    smtp_verify ascii_runtime accepting_env (u"user@example.org")
      (u"mx1.example.org") (init [])
    = (Return (valid, code,
               rcpt_reply ascii_runtime accepting_env (u"mx1.example.org")),
       w')
    /\ code = match Py.int ascii_runtime
                      (Text.slice_to 3
                         (rcpt_reply ascii_runtime accepting_env
                            (u"mx1.example.org"))) with
              | Some n => n
              | None => 500%Z
              end
    /\ (valid = true <-> code = 250%Z \/ code = 251%Z)
    /\ (Py.int ascii_runtime
          (Text.slice_to 3
             (rcpt_reply ascii_runtime accepting_env (u"mx1.example.org")))
        = None -> valid = false).
Proof.
  apply (smtp_verdict_iff_accepted ascii_runtime accepting_env
           (u"user@example.org") (u"mx1.example.org") (init [])).
  - simpl. lia.
  - vm_compute. reflexivity.
Defined.

(** The two replies of section 8 of the specification, a forwarding
    reply, and one whose first three characters are no number. *)
Example probe_samples :
  let run reply :=
    fst (smtp_verify ascii_runtime
           (sample_env (inr sample_answer)
              (answering_peer (u"220 ready" ++ crlf) (reply ++ crlf)))
           (u"user@example.org") (u"mx1.example.org") (init [])) in
  run (u"250 2.1.5 Recipient OK")
  = Return (true, 250%Z, u"250 2.1.5 Recipient OK")
  /\ run (u"251 User not local; will forward")
     = Return (true, 251%Z, u"251 User not local; will forward")
  /\ run (u"550 5.1.1 Unknown user")
     = Return (false, 550%Z, u"550 5.1.1 Unknown user")
  /\ run (u"busy") = Return (false, 500%Z, u"busy").
Proof. repeat split; vm_compute; reflexivity. Qed.


(** C2 at a mail host that opens the connection and greets with 554: the
    probe answers (false, 0, "SMTP连接失败"), and the connection it opened
    is still open when it returns; nothing closed it. *)
Theorem rejected_greeting_leaks_connection :
  fst (smtp_verify ascii_runtime refusing_env (u"user@example.org")
         (u"mx1.example.org") (init []))
  = Return (false, 0%Z, u"SMTP连接失败")
  /\ sockets (snd (smtp_verify ascii_runtime refusing_env
                     (u"user@example.org") (u"mx1.example.org") (init [])))
     = 1
  /\ trace (snd (smtp_verify ascii_runtime refusing_env
                   (u"user@example.org") (u"mx1.example.org") (init [])))
     = [TcpConnect (u"mx1.example.org") 25].
Proof. repeat split; vm_compute; reflexivity. Qed.

(** The same after a time-out on the greeting. *)
Example timed_out_greeting_leaks_connection :
  let p := {| on_connect := Done tt;
              on_greeting := Failed (TimeoutError []);
              on_ehlo_drain := Done tt; on_ehlo_reply := Done [];
              on_mail_drain := Done tt; on_mail_reply := Done [];
              on_rcpt_drain := Done tt; on_rcpt_reply := Done [];
              on_quit_drain := Done tt; on_wait_closed := Done tt |} in
  let run := smtp_verify ascii_runtime (sample_env (inr sample_answer) p)
               (u"user@example.org") (u"mx1.example.org") (init []) in
  fst run = Return (false, 0%Z, u"连接超时")
  /\ sockets (snd run) = 1
  /\ trace (snd run) = [TcpConnect (u"mx1.example.org") 25].
Proof. repeat split; vm_compute; reflexivity. Qed.

(** A host that resets the connection instead of greeting: the probe
    answers with the text of the error, and the connection is gone
    without the probe closing it. *)
Example reset_greeting_drops_connection :
  let p := {| on_connect := Done tt;
              on_greeting := Lost (Exception (u"Connection reset by peer"));
              on_ehlo_drain := Done tt; on_ehlo_reply := Done [];
              on_mail_drain := Done tt; on_mail_reply := Done [];
              on_rcpt_drain := Done tt; on_rcpt_reply := Done [];
              on_quit_drain := Done tt; on_wait_closed := Done tt |} in
  let run := smtp_verify ascii_runtime (sample_env (inr sample_answer) p)
               (u"user@example.org") (u"mx1.example.org") (init []) in
  fst run = Return (false, 0%Z, u"Connection reset by peer")
  /\ sockets (snd run) = 0
  /\ trace (snd run) = [TcpConnect (u"mx1.example.org") 25].
Proof. repeat split; vm_compute; reflexivity. Qed.

(** On the complete path the connection is closed again. *)
Example completed_probe_closes_connection :
  sockets (snd (smtp_verify ascii_runtime accepting_env
                  (u"user@example.org") (u"mx1.example.org") (init [])))
  = 0
  /\ last (trace (snd (smtp_verify ascii_runtime accepting_env
                         (u"user@example.org") (u"mx1.example.org")
                         (init []))))
          (TcpConnect [] 0)
     = TcpClose.
Proof. repeat split; vm_compute; reflexivity. Qed.

(** ** The orchestrator, path by path *)

Section Paths.
Variable rt : runtime.
Variable E : env.

Lemma verify_email_hit addr w o :
  cache_lookup E addr (table w) = Some o ->
  verify_email rt E addr w = (Return o, looked_up E addr w).
Proof.
  intro H. unfold verify_email, bind.
  rewrite get_cached_result_run, H. reflexivity.
Qed.

Lemma verify_email_malformed addr w :
  cache_lookup E addr (table w) = None ->
  is_valid_email_format addr = false ->
  let result := new_result E addr false None [] [] (Some (u"邮箱格式无效")) in
  verify_email rt E addr w
  = (Return result, persist E result (looked_up E addr w)).
Proof.
  intros H Hf. unfold verify_email, bind.
  rewrite get_cached_result_run, H, Hf. cbn [negb].
  rewrite cache_result_run. reflexivity.
Qed.

Lemma verify_email_no_mx addr w :
  cache_lookup E addr (table w) = None ->
  is_valid_email_format addr = true ->
  mx_hosts E (domain_of rt addr) = [] ->
  let result :=
    new_result E addr false None (u"未找到MX记录") []
      (Some (u"域名没有MX记录")) in
  verify_email rt E addr w
  = (Return result,
     persist E result
       (log (DnsQuery (domain_of rt addr)) (looked_up E addr w))).
Proof.
  intros H Hf Hmx. unfold verify_email, bind.
  rewrite get_cached_result_run, H, Hf. cbn [negb].
  destruct (well_formed_has_domain _ Hf) as [piece Hp].
  unfold domain_of in Hmx. rewrite Hp in *.
  rewrite get_mx_records_run, Hmx, cache_result_run.
  unfold domain_of. rewrite Hp. reflexivity.
Qed.

Lemma verify_email_probe addr w primary_mx rest :
  cache_lookup E addr (table w) = None ->
  is_valid_email_format addr = true ->
  mx_hosts E (domain_of rt addr) = primary_mx :: rest ->
  let w1 := log (DnsQuery (domain_of rt addr)) (looked_up E addr w) in
  let run := smtp_verify rt E addr primary_mx w1 in
  let result := probe_outcome E addr (primary_mx :: rest) (fst run) in
  verify_email rt E addr w = (Return result, persist E result (snd run)).
Proof.
  intros H Hf Hmx. unfold verify_email, bind, try_except.
  rewrite get_cached_result_run, H, Hf. cbn [negb].
  destruct (well_formed_has_domain _ Hf) as [piece Hp].
  unfold domain_of in *. rewrite Hp in *.
  rewrite get_mx_records_run, Hmx.
  cbv zeta.
  destruct (smtp_verify rt E addr primary_mx _) as [[[[valid code] text]|e] w2];
    cbn [fst snd probe_outcome ret]; rewrite cache_result_run; reflexivity.
Qed.

Lemma miss_result_cursor addr w1 w2 :
  current_sender w1 = current_sender w2 ->
  miss_result rt E addr w1 = miss_result rt E addr w2.
Proof.
  intro Hc. unfold miss_result.
  destruct (is_valid_email_format addr); [|reflexivity].
  destruct (mx_hosts E (domain_of rt addr)) as [|primary_mx rest];
    [reflexivity|].
  now rewrite (smtp_verify_cursor rt E addr primary_mx w1 w2 Hc).
Qed.

(** Whatever path is taken, a call that misses the cache returns
    [miss_result] and ends in [cache_result], which it reaches in
    [miss_world]. *)
Lemma verify_email_miss_run addr w :
  cache_lookup E addr (table w) = None ->
  verify_email rt E addr w
  = (Return (miss_result rt E addr w),
     persist E (miss_result rt E addr w) (miss_world rt E addr w)).
Proof.
  intro H. unfold miss_result, miss_world.
  destruct (is_valid_email_format addr) eqn:Hf.
  - destruct (mx_hosts E (domain_of rt addr)) as [|primary_mx rest] eqn:Hmx.
    + now rewrite (verify_email_no_mx addr w H Hf Hmx).
    + rewrite (verify_email_probe addr w primary_mx rest H Hf Hmx).
      cbv zeta.
      now rewrite (smtp_verify_cursor rt E addr primary_mx
                     (log (DnsQuery (domain_of rt addr)) (looked_up E addr w))
                     w (proj1 (proj2 (looked_up_rest E addr w)))).
  - now rewrite (verify_email_malformed addr w H Hf).
Qed.

(** Up to [cache_result] the call leaves the table alone and sends it
    no statement but the lookup. *)
Lemma miss_world_spec addr w :
  table (miss_world rt E addr w) = table w
  /\ exists events,
       trace (miss_world rt E addr w)
       = trace w ++ lookup_events E addr ++ events
       /\ upserts events = [].
Proof.
  unfold miss_world.
  destruct (looked_up_rest E addr w) as (Ht & _ & _).
  destruct (is_valid_email_format addr).
  - destruct (mx_hosts E (domain_of rt addr)) as [|primary_mx rest].
    + split; [exact Ht|].
      exists [DnsQuery (domain_of rt addr)]. cbn [trace log].
      rewrite looked_up_trace, <- app_assoc. split; reflexivity.
    + set (w0 := log (DnsQuery (domain_of rt addr)) (looked_up E addr w)).
      destruct (smtp_verify_network_only rt E addr primary_mx w0)
        as (Ht' & events & Htr & Hnet).
      split; [rewrite Ht'; exact Ht|].
      exists (DnsQuery (domain_of rt addr) :: events). split.
      * rewrite Htr. unfold w0. cbn [trace log].
        rewrite looked_up_trace. now rewrite <- !app_assoc.
      * clear Htr. induction events as [|x events IH]; [reflexivity|].
        simpl in Hnet. apply andb_true_iff in Hnet as [Hx Hnet].
        destruct x; try discriminate; exact (IH Hnet).
  - split; [exact Ht|].
    exists []. rewrite app_nil_r. split; [apply looked_up_trace | reflexivity].
Qed.

Lemma verify_email_miss addr w :
  cache_lookup E addr (table w) = None ->
  exists w1,
    verify_email rt E addr w
    = (Return (miss_result rt E addr w), persist E (miss_result rt E addr w) w1)
    /\ table w1 = table w
    /\ exists events,
         trace w1 = trace w ++ lookup_events E addr ++ events
         /\ upserts events = [].
Proof.
  intro H. exists (miss_world rt E addr w). split.
  - now apply verify_email_miss_run.
  - apply miss_world_spec.
Qed.

(** The two ways a call can go. *)
Lemma verify_email_run addr w :
  verify_email rt E addr w
  = match cache_lookup E addr (table w) with
    | Some hit => (Return hit, looked_up E addr w)
    | None =>
        (Return (miss_result rt E addr w),
         persist E (miss_result rt E addr w) (miss_world rt E addr w))
    end.
Proof.
  destruct (cache_lookup E addr (table w)) as [hit|] eqn:Hl.
  - now apply verify_email_hit.
  - now apply verify_email_miss_run.
Qed.

End Paths.

(** ** The orchestrator: what each call does *)

Lemma lookup_miss E addr w :
  fst (get_cached_result E addr w) = Return None ->
  cache_lookup E addr (table w) = None.
Proof. rewrite get_cached_result_run. cbn [fst]. congruence. Qed.




(** C5, as amended: for a well-formed address that is not served from the
    cache and whose domain, in lower case, yields no MX host,
    [verify_email] returns an outcome with [is_valid = false],
    [mx_records = []] and the error message "域名没有MX记录"; it sends the
    store the lookup and the write of that outcome, asks the resolver
    once, and opens no connection. *)
Theorem domain_without_mx_rejected rt E addr w :
  is_valid_email_format addr = true ->
  fst (get_cached_result E addr w) = Return None ->
  fst (get_mx_records E (domain_of rt addr) w) = Return [] ->
  exists result w',
    verify_email rt E addr w = (Return result, w')
    /\ email result = addr
    /\ is_valid result = false
    /\ mx_records result = []
    /\ error_message result = Some (u"域名没有MX记录")
    /\ trace w'
       = trace w ++ lookup_events E addr
         ++ [DnsQuery (domain_of rt addr); SqlUpsert (row_of_result result)]
    /\ table w' = stored_after E (row_of_result result) (table w)
    /\ sockets w' = sockets w
    /\ current_sender w' = current_sender w.
Proof.
  intros Hf Hmiss Hmx. apply lookup_miss in Hmiss.
  rewrite get_mx_records_run in Hmx. cbn [fst] in Hmx.
  injection Hmx as Hmx.
  rewrite (verify_email_no_mx rt E addr w Hmiss Hf Hmx).
  do 2 eexists. split; [reflexivity|].
  destruct (looked_up_rest E addr w) as (Ht & Hc & Hs).
  cbn [persist trace table sockets current_sender set_table log
       new_result email is_valid error_message mx_records].
  rewrite looked_up_trace, <- !app_assoc, Ht, Hc, Hs. repeat split.
Qed.

Lemma domain_without_mx_rejected_witness :
  exists result w',
    verify_email ascii_runtime no_mx_env (u"user@Example.ORG") (init [])
    = (Return result, w')
    /\ email result = u"user@Example.ORG"
    /\ is_valid result = false
    /\ mx_records result = []
    /\ error_message result = Some (u"域名没有MX记录")
    /\ trace w'
       = trace (init [])
         ++ lookup_events no_mx_env (u"user@Example.ORG")
         ++ [DnsQuery (domain_of ascii_runtime (u"user@Example.ORG"));
             SqlUpsert (row_of_result result)]
    /\ table w'
       = stored_after no_mx_env (row_of_result result) (table (init []))
    /\ sockets w' = sockets (init [])
    /\ current_sender w' = current_sender (init []).
Proof.
  apply (domain_without_mx_rejected ascii_runtime no_mx_env
           (u"user@Example.ORG") (init [])).
  - vm_compute. reflexivity.
  - vm_compute. reflexivity.
  - vm_compute. reflexivity.
Defined.

(** C5 as stated does not hold: the message of the outcome is the
    source's own text, not "no MX records". *)
Lemma no_mx_message_is_the_source_text :
  is_valid_email_format (u"user@Example.ORG") = true
  /\ fst (get_cached_result no_mx_env (u"user@Example.ORG") (init []))
     = Return None
  /\ fst (get_mx_records no_mx_env
            (domain_of ascii_runtime (u"user@Example.ORG")) (init []))
     = Return []
  /\ exists result,
       fst (verify_email ascii_runtime no_mx_env (u"user@Example.ORG")
              (init []))
       = Return result
       /\ error_message result = Some (u"域名没有MX记录")
       /\ error_message result <> Some (u"no MX records").
Proof.
  split; [vm_compute; reflexivity|].
  split; [vm_compute; reflexivity|].
  split; [vm_compute; reflexivity|].
  eexists. split; [vm_compute; reflexivity|].
  split; [reflexivity | vm_compute; discriminate].
Qed.

Example domain_is_lower_cased :
  domain_of ascii_runtime (u"user@Example.ORG") = u"example.org".
Proof. vm_compute. reflexivity. Qed.

(** ** The resolver *)

Lemma insert_by_perm {A} (key : A -> N) x l :
  Permutation (x :: l) (insert_by key x l).
Proof.
  induction l as [|y l IH]; simpl; [reflexivity|].
  destruct (key x <=? key y)%N; [reflexivity|].
  rewrite perm_swap. now constructor.
Qed.

Lemma sorted_perm {A} (key : A -> N) l : Permutation l (sorted key l).
Proof.
  induction l as [|x l IH]; simpl; [constructor|].
  rewrite <- insert_by_perm. now constructor.
Qed.

Lemma insert_by_sorted {A} (key : A -> N) x l :
  StronglySorted (fun a b => (key a <= key b)%N) l ->
  StronglySorted (fun a b => (key a <= key b)%N) (insert_by key x l).
Proof.
  induction 1 as [|y l Hs IH Hy]; simpl.
  - repeat constructor.
  - destruct (N.leb_spec (key x) (key y)) as [Hle | Hgt].
    + constructor; [now constructor|].
      constructor; [assumption|].
      eapply Forall_impl; [|exact Hy]. simpl. intros; lia.
    + constructor; [assumption|].
      apply (Permutation_Forall (insert_by_perm key x l)).
      constructor; [lia | assumption].
Qed.

Lemma sorted_sorted {A} (key : A -> N) l :
  StronglySorted (fun a b => (key a <= key b)%N) (sorted key l).
Proof.
  induction l as [|x l IH]; simpl; [constructor|].
  now apply insert_by_sorted.
Qed.

Lemma all_dots tail :
  forallb (N.eqb 46) tail = true -> tail = repeat 46%N (List.length tail).
Proof.
  induction tail as [|c tail IH]; cbn [forallb List.length repeat];
    [reflexivity|].
  intro H. apply andb_true_iff in H as [Hc Ht].
  apply N.eqb_eq in Hc. subst c. now rewrite <- (IH Ht).
Qed.

(** C6: [get_mx_records] always returns.  When the resolver answers, the
    hosts are those of the answer in ascending order of preference, each
    being the exchange name less the dots at its end; when the resolver
    raises, the list is empty. *)
Theorem get_mx_records_sorted_or_empty E domain w :
  exists hosts w',
    get_mx_records E domain w = (Return hosts, w')
    /\ match dns E domain with
       | inl _ => hosts = []
       | inr answer =>
           exists ordered,
             Permutation answer ordered
             /\ StronglySorted
                  (fun a b => (preference a <= preference b)%N) ordered
             /\ Forall2
                  (fun mx host =>
                     (exists k, exchange mx = host ++ repeat 46%N k)
                     /\ last host 0%N <> 46%N)
                  ordered hosts
       end.
Proof.
  rewrite get_mx_records_run. do 2 eexists. split; [reflexivity|].
  unfold mx_hosts. destruct (dns E domain) as [e | answer]; [reflexivity|].
  exists (sorted preference answer).
  split; [apply sorted_perm|]. split; [apply sorted_sorted|].
  induction (sorted preference answer) as [|mx l IH]; simpl; constructor;
    [|exact IH].
  split.
  - destruct (TextFacts.rstrip_decompose (N.eqb 46) (exchange mx))
      as (tail & Heq & Hall).
    exists (List.length tail). now rewrite <- (all_dots tail Hall).
  - intro Hlast.
    assert (Hd : N.eqb 46 (last (Text.rstrip (N.eqb 46) (exchange mx)) 0%N)
                 = true) by (rewrite Hlast; reflexivity).
    apply TextFacts.rstrip_last in Hd. rewrite Hd in Hlast. discriminate.
Qed.

Example get_mx_records_sample :
  fst (get_mx_records accepting_env (u"example.org") (init []))
  = Return [u"mx1.example.org"; u"mx0.example.org"; u"mx2.example.org"].
Proof. vm_compute. reflexivity. Qed.

(** ** The sender pool *)

Lemma get_next_sender_run w :
  current_sender w < List.length sender_configs ->
  exists chosen,
    nth_error sender_configs (current_sender w) = Some chosen
    /\ get_next_sender w
       = (Return chosen,
          set_current_sender
            ((current_sender w + 1) mod List.length sender_configs) w).
Proof.
  intro Hlt. unfold get_next_sender, bind, get, modify, ret.
  destruct (nth_error sender_configs (current_sender w)) as [chosen|] eqn:Hn.
  - exists chosen. split; reflexivity.
  - apply nth_error_None in Hn. lia.
Qed.

Lemma next_senders_cursor n : forall w,
  current_sender w < List.length sender_configs ->
  current_sender (snd (next_senders n w))
  = (current_sender w + n) mod List.length sender_configs.
Proof.
  induction n as [|n IH]; intros w Hlt.
  - simpl next_senders. cbn [snd]. rewrite Nat.add_0_r.
    symmetry. now apply Nat.mod_small.
  - cbn [next_senders].
    destruct (get_next_sender_run w Hlt) as (chosen & _ & ->).
    set (w1 := set_current_sender _ w).
    specialize (IH w1).
    destruct (next_senders n w1) as [rs w2]. cbn [snd] in *.
    rewrite IH.
    + unfold w1. cbn [current_sender set_current_sender].
      rewrite Nat.Div0.add_mod_idemp_l. f_equal. lia.
    + unfold w1. cbn [current_sender set_current_sender].
      apply Nat.mod_upper_bound. discriminate.
Qed.

(** C7: from the cursor [__init__] sets, as many calls of
    [get_next_sender] as there are configured senders return them all,
    once each, in the configured order; the call after any [n] calls
    returns the sender at position [n] modulo that number, so the
    sequence repeats; and each call moves the cursor on by one modulo
    that number, which keeps it in range. *)
Theorem sender_rotation stored :
  let size := List.length sender_configs in
  NoDup sender_configs
  /\ fst (next_senders size (init stored)) = map Return sender_configs
  /\ forall n,
       let w := snd (next_senders n (init stored)) in
       current_sender w = n mod size
       /\ current_sender w < size
       /\ (exists chosen,
             nth_error sender_configs (n mod size) = Some chosen
             /\ fst (get_next_sender w) = Return chosen)
       /\ current_sender (snd (get_next_sender w))
          = (current_sender w + 1) mod size.
Proof.
  intro size. split.
  { repeat constructor; simpl; intuition discriminate. }
  split; [reflexivity|].
  intros n w.
  assert (Hc : current_sender w = n mod size).
  { unfold w. rewrite next_senders_cursor; [reflexivity|]. simpl. lia. }
  assert (Hlt : current_sender w < size).
  { rewrite Hc. apply Nat.mod_upper_bound. discriminate. }
  destruct (get_next_sender_run w Hlt) as (chosen & Hn & Hrun).
  repeat split; try assumption.
  - exists chosen. rewrite <- Hc, Hrun. split; [assumption | reflexivity].
  - rewrite Hrun. reflexivity.
Qed.

(** ** The cache *)

(** C8, as amended: over a table with unique keys, [get_cached_result]
    returns an outcome exactly when the cut-off [now - cache_duration]
    is a date the interpreter can hold, the read works and the row of
    the address is younger than the cache duration; the outcome carries
    the columns of that row and [cached = true].  Otherwise it returns
    [None].  On a hit [verify_email] returns that outcome, and the lookup
    is all that happened: whatever the address looks like, no resolver,
    no probe, no write. *)
Theorem cache_hit_is_served rt E addr w :
  keys_unique (table w) ->
  (forall o,
      fst (get_cached_result E addr w) = Return (Some o) <->
      cutoff_is_date E = true
      /\ select_fault E = None
      /\ exists r,
           In r (table w) /\ row_email r = addr
           /\ (clock_lookup E - row_timestamp r < cache_duration E)%Z
           /\ row_of_result o = r /\ cached o = true)
  /\ (fst (get_cached_result E addr w) = Return None <->
      cutoff_is_date E = false
      \/ select_fault E <> None
      \/ forall r,
           In r (table w) -> row_email r = addr ->
           ~ (clock_lookup E - row_timestamp r < cache_duration E)%Z)
  /\ (forall o,
        fst (get_cached_result E addr w) = Return (Some o) ->
        verify_email rt E addr w
        = (Return o, log (SqlSelect addr (cutoff E)) w)).
Proof.
  intro Hu. rewrite get_cached_result_run. cbn [fst].
  unfold cache_lookup, cutoff. split; [|split].
  - intro o. split.
    + intro H. destruct (cutoff_is_date E); [|discriminate].
      destruct (select_fault E); [discriminate|].
      destruct (select_fresh _ _ _) as [r|] eqn:Hs; [|discriminate].
      injection H as <-. split; [reflexivity|]. split; [reflexivity|].
      exists r.
      apply select_fresh_some in Hs as (Hin & Hk & Ht).
      repeat split; try assumption; [lia | now destruct r].
    + intros (Hdate & Hfault & r & Hin & Hk & Ht & Hrow & Hc).
      rewrite Hdate, Hfault.
      rewrite (select_fresh_unique addr _ (table w) r Hu Hin Hk) by lia.
      cbn [option_map]. do 2 f_equal. subst r. destruct o. simpl in Hc.
      now subst.
  - split.
    + intro H. destruct (cutoff_is_date E); [|now left]. right.
      destruct (select_fault E); [left; discriminate|]. right.
      destruct (select_fresh _ _ _) eqn:Hs; [discriminate|].
      intros r Hin Hk Ht.
      apply (select_fresh_none _ _ _ Hs r Hin Hk). lia.
    + intros [Hdate | [Hfault | Hold]].
      * now rewrite Hdate.
      * destruct (cutoff_is_date E); [|reflexivity].
        destruct (select_fault E); [reflexivity | congruence].
      * destruct (cutoff_is_date E); [|reflexivity].
        destruct (select_fault E); [reflexivity|].
        destruct (select_fresh _ _ _) as [r|] eqn:Hs; [|reflexivity].
        apply select_fresh_some in Hs as (Hin & Hk & Ht).
        exfalso. apply (Hold r Hin Hk). lia.
  - intros o H. injection H as H.
    assert (Hhit : cache_lookup E addr (table w) = Some o) by exact H.
    rewrite (verify_email_hit rt E addr w o Hhit).
    unfold looked_up.
    destruct (cutoff_is_date E); [reflexivity | discriminate].
Qed.

Lemma cache_hit_is_served_witness :
  keys_unique (table (init [fresh_row]))
  /\ verify_email ascii_runtime accepting_env (u"not-an-address")
       (init [fresh_row])
     = (Return (result_of_row fresh_row),
        log (SqlSelect (u"not-an-address") (cutoff accepting_env))
          (init [fresh_row])).
Proof.
  assert (Hu : keys_unique (table (init [fresh_row]))).
  { unfold keys_unique. simpl. repeat constructor. simpl. tauto. }
  split; [exact Hu|].
  apply (cache_hit_is_served ascii_runtime accepting_env (u"not-an-address")
           (init [fresh_row]) Hu).
  vm_compute. reflexivity.
Defined.

(** C8 as stated does not hold: under a cache duration of twenty million
    hours the row written a moment ago is within the duration, the read
    works, and the lookup still returns [None], because the cut-off
    would lie before the year 1; the call goes on to verify the address
    and to write again. *)
Lemma long_duration_is_never_served :
  keys_unique (table (init [fresh_row]))
  /\ select_fault long_cache_env = None
  /\ In fresh_row (table (init [fresh_row]))
  /\ row_email fresh_row = u"not-an-address"
  /\ (0 <= clock_lookup long_cache_env - row_timestamp fresh_row
      < cache_duration long_cache_env)%Z
  /\ datetime_sub (clock_lookup long_cache_env)
       (cache_duration long_cache_env)
     = inl (Exception (u"date value out of range"))
  /\ fst (get_cached_result long_cache_env (u"not-an-address")
            (init [fresh_row]))
     = Return None
  /\ (exists result,
        fst (verify_email ascii_runtime long_cache_env
               (u"not-an-address") (init [fresh_row]))
        = Return result
        /\ cached result = false)
  /\ upserts (trace (snd (verify_email ascii_runtime long_cache_env
                            (u"not-an-address") (init [fresh_row]))))
     <> [].
Proof.
  split; [unfold keys_unique; simpl; repeat constructor; simpl; tauto|].
  split; [reflexivity|].
  split; [simpl; tauto|].
  split; [reflexivity|].
  split; [vm_compute; split; [discriminate | reflexivity]|].
  split; [vm_compute; reflexivity|].
  split; [vm_compute; reflexivity|].
  split; [eexists; split; vm_compute; reflexivity|].
  vm_compute. discriminate.
Qed.

Example stale_row_is_not_served :
  fst (get_cached_result accepting_env (u"user@example.org") (init [stale_row]))
  = Return None.
Proof. vm_compute. reflexivity. Qed.

(** ** One record per call and per address *)

Lemma upserts_app a b : upserts (a ++ b) = upserts a ++ upserts b.
Proof. unfold upserts. apply flat_map_app. Qed.

Lemma miss_result_binds rt E addr w :
  row_binds (row_of_result (miss_result rt E addr w)) = true.
Proof.
  unfold miss_result, probe_outcome, row_binds.
  destruct (is_valid_email_format addr); [|reflexivity].
  destruct (mx_hosts E (domain_of rt addr)) as [|primary_mx rest];
    [reflexivity|].
  pose proof (smtp_verify_code_fits rt E addr primary_mx w) as Hfit.
  destruct (fst _) as [[[valid code] text]|e]; [exact Hfit | reflexivity].
Qed.

Lemma miss_result_email rt E addr w : email (miss_result rt E addr w) = addr.
Proof.
  unfold miss_result, probe_outcome.
  destruct (is_valid_email_format addr); [|reflexivity].
  destruct (mx_hosts E (domain_of rt addr)); [reflexivity|].
  destruct (fst _) as [[[valid code] text]|e]; reflexivity.
Qed.



Example stale_row_is_replaced :
  map row_status_code
    (table (snd (verify_email ascii_runtime rejecting_env
                   (u"user@example.org") (init [stale_row]))))
  = [Some 550%Z].
Proof. vm_compute. reflexivity. Qed.

(** ** Faults of the store *)

Lemma miss_result_env rt E1 E2 addr w :
  dns E1 = dns E2 -> peer E1 = peer E2 ->
  clock_result E1 = clock_result E2 ->
  time_start E1 = time_start E2 -> time_end E1 = time_end E2 ->
  miss_result rt E1 addr w = miss_result rt E2 addr w.
Proof.
  unfold miss_result, mx_hosts, probe_outcome, new_result, smtp_verify.
  intros -> -> -> -> ->. reflexivity.
Qed.

Lemma miss_result_uncached rt E addr w : cached (miss_result rt E addr w) = false.
Proof.
  unfold miss_result, probe_outcome.
  destruct (is_valid_email_format addr); [|reflexivity].
  destruct (mx_hosts E (domain_of rt addr)); [reflexivity|].
  destruct (fst _) as [[[valid code] text]|e]; reflexivity.
Qed.

Lemma verify_email_returns rt E addr w :
  exists result w', verify_email rt E addr w = (Return result, w').
Proof.
  destruct (cache_lookup E addr (table w)) as [o|] eqn:Hl.
  - rewrite (verify_email_hit rt E addr w o Hl). eauto.
  - destruct (verify_email_miss rt E addr w Hl) as (w1 & -> & _). eauto.
Qed.

(** C10: [verify_email] never raises.  With the read failing, the lookup
    answers [None] and the call verifies: it returns [miss_result], the
    outcome of the format check, the resolution and the probe, not
    marked as cached; it comes to the write in [miss_world], after the
    query to the resolver and the events of the probe; and the outcome
    is the one returned over a working, empty store.  With the write
    failing, a call the cache does not serve returns that same computed
    outcome, the attempt to write it is the last thing it did, and the
    table is as it was; the outcome is the one returned when the write
    works.  With the commit failing, the call likewise returns the
    outcome it computed, the one returned when the commit works, after
    one write. *)
Theorem storage_faults_absorbed rt E addr w e :
  (exists result w', verify_email rt E addr w = (Return result, w'))
  /\ (let E' := with_select_fault (Some e) E in
      fst (get_cached_result E' addr w) = Return None
      /\ verify_email rt E' addr w
         = (Return (miss_result rt E' addr w),
            persist E' (miss_result rt E' addr w) (miss_world rt E' addr w))
      /\ cached (miss_result rt E' addr w) = false
      /\ fst (verify_email rt (with_select_fault None E) addr
                (set_table [] w))
         = Return (miss_result rt E' addr w))
  /\ (let E' := with_upsert_fault (Some e) E in
      verify_email rt E' addr w
      = match cache_lookup E addr (table w) with
        | Some hit => (Return hit, looked_up E addr w)
        | None =>
            (Return (miss_result rt E addr w),
             log (SqlUpsert (row_of_result (miss_result rt E addr w)))
               (miss_world rt E addr w))
        end
      /\ fst (verify_email rt E' addr w)
         = fst (verify_email rt (with_upsert_fault None E) addr w)
      /\ table (snd (verify_email rt E' addr w)) = table w)
  /\ (let E' := with_commit_fault (Some e) E in
      fst (verify_email rt E' addr w)
      = Return match cache_lookup E addr (table w) with
               | Some hit => hit
               | None => miss_result rt E addr w
               end
      /\ fst (verify_email rt E' addr w)
         = fst (verify_email rt (with_commit_fault None E) addr w)
      /\ upserts (trace (snd (verify_email rt E' addr w)))
         = upserts (trace w)
           ++ match cache_lookup E addr (table w) with
              | Some _ => []
              | None => [row_of_result (miss_result rt E addr w)]
              end).
Proof.
  split; [apply verify_email_returns|]. split; [|split].
  - cbv zeta.
    set (E1 := with_select_fault (Some e) E).
    set (E2 := with_select_fault None E).
    assert (H1 : cache_lookup E1 addr (table w) = None).
    { unfold cache_lookup. now destruct (cutoff_is_date E1). }
    assert (H2 : cache_lookup E2 addr (table (set_table [] w)) = None).
    { unfold cache_lookup. now destruct (cutoff_is_date E2). }
    split; [rewrite get_cached_result_run; cbn [fst]; now rewrite H1|].
    split; [now apply verify_email_miss_run|].
    split; [apply miss_result_uncached|].
    rewrite (verify_email_miss_run rt E2 addr (set_table [] w) H2).
    cbn [fst]. f_equal.
    rewrite (miss_result_cursor rt E2 addr (set_table [] w) w eq_refl).
    symmetry. now apply miss_result_env.
  - cbv zeta.
    set (E1 := with_upsert_fault (Some e) E).
    set (E2 := with_upsert_fault None E).
    rewrite (verify_email_run rt E1 addr w), (verify_email_run rt E2 addr w).
    change (cache_lookup E1 addr (table w))
      with (cache_lookup E addr (table w)).
    change (cache_lookup E2 addr (table w))
      with (cache_lookup E addr (table w)).
    destruct (cache_lookup E addr (table w)) as [hit|].
    + split; [reflexivity|]. split; [reflexivity|].
      apply (looked_up_rest E addr w).
    + split; [reflexivity|]. split; [reflexivity|].
      cbn [snd persist table set_table stored_after upsert_fault E1
           with_upsert_fault log].
      apply (miss_world_spec rt E1 addr w).
  - cbv zeta.
    set (E1 := with_commit_fault (Some e) E).
    set (E2 := with_commit_fault None E).
    rewrite (verify_email_run rt E1 addr w), (verify_email_run rt E2 addr w).
    change (cache_lookup E1 addr (table w))
      with (cache_lookup E addr (table w)).
    change (cache_lookup E2 addr (table w))
      with (cache_lookup E addr (table w)).
    destruct (cache_lookup E addr (table w)) as [hit|].
    + split; [reflexivity|]. split; [reflexivity|].
      cbn [snd]. change (looked_up E1 addr w) with (looked_up E addr w).
      rewrite looked_up_trace, upserts_app.
      unfold lookup_events. now destruct (cutoff_is_date E).
    + split; [reflexivity|]. split; [reflexivity|].
      cbn [snd persist trace set_table log].
      destruct (miss_world_spec rt E1 addr w) as (_ & events & -> & Hev).
      rewrite !upserts_app, Hev.
      replace (upserts (lookup_events E1 addr)) with (@nil row)
        by (unfold lookup_events; now destruct (cutoff_is_date E1)).
      cbn [app]. rewrite app_nil_r. reflexivity.
Qed.

Example failing_store_still_answers :
  (exists result,
     fst (verify_email ascii_runtime
            (with_upsert_fault (Some (Exception (u"database is locked")))
               (with_select_fault (Some (Exception (u"database is locked")))
                  accepting_env))
            (u"user@example.org") (init [stale_row]))
     = Return result
     /\ is_valid result = true /\ status_code result = Some 250%Z)
  /\ table (snd (verify_email ascii_runtime
                   (with_upsert_fault (Some (Exception (u"database is locked")))
                      (with_select_fault
                         (Some (Exception (u"database is locked")))
                         accepting_env))
                   (u"user@example.org") (init [stale_row])))
     = [stale_row]
  /\ map is_network
       (trace (snd (verify_email ascii_runtime
                      (with_upsert_fault
                         (Some (Exception (u"database is locked")))
                         (with_select_fault
                            (Some (Exception (u"database is locked")))
                            accepting_env))
                      (u"user@example.org") (init [stale_row]))))
     = [false; false; true; true; true; true; true; true; false].
Proof.
  split; [eexists; split; [vm_compute; reflexivity | split; reflexivity]|].
  split; vm_compute; reflexivity.
Qed.

(** ** What every call keeps *)

Lemma smtp_verify_moves_cursor rt E addr mx_host w :
  current_sender w < List.length sender_configs ->
  current_sender (snd (smtp_verify rt E addr mx_host w))
  = (current_sender w + 1) mod List.length sender_configs.
Proof.
  intro Hlt.
  destruct (nth_error sender_configs (current_sender w)) as [chosen|] eqn:Hn;
    [|apply nth_error_None in Hn; lia].
  unfold smtp_verify. unfold_monad. rewrite Hn. cbv beta iota zeta.
  repeat case_step; reflexivity.
Qed.

(** The key of the table stays unique and the cursor stays in range
    across [verify_email]. *)
Lemma verify_email_invariant rt E addr w :
  keys_unique (table w) ->
  current_sender w < List.length sender_configs ->
  let w' := snd (verify_email rt E addr w) in
  keys_unique (table w') /\ current_sender w' < List.length sender_configs.
Proof.
  intros Hu Hlt.
  destruct (looked_up_rest E addr w) as (Ht0 & Hc0 & _).
  destruct (cache_lookup E addr (table w)) as [o|] eqn:Hl.
  - rewrite (verify_email_hit rt E addr w o Hl). cbn [snd].
    rewrite Ht0, Hc0. auto.
  - destruct (is_valid_email_format addr) eqn:Hf.
    + destruct (mx_hosts E (domain_of rt addr)) as [|primary_mx rest] eqn:Hmx.
      * rewrite (verify_email_no_mx rt E addr w Hl Hf Hmx).
        cbv zeta. cbn [snd persist table current_sender set_table log].
        rewrite Ht0, Hc0.
        split; [now apply stored_after_keys | assumption].
      * rewrite (verify_email_probe rt E addr w primary_mx rest Hl Hf Hmx).
        cbv zeta. cbn [snd persist table current_sender set_table log].
        set (w0 := log _ (looked_up E addr w)).
        destruct (smtp_verify_network_only rt E addr primary_mx w0)
          as (Ht & _).
        cbv zeta in Ht. rewrite Ht. unfold w0. cbn [table log].
        rewrite Ht0. split.
        -- now apply stored_after_keys.
        -- rewrite smtp_verify_moves_cursor
             by (cbn [current_sender log]; rewrite Hc0; exact Hlt).
           apply Nat.mod_upper_bound. discriminate.
    + rewrite (verify_email_malformed rt E addr w Hl Hf).
      cbv zeta. cbn [snd persist table current_sender set_table log].
      rewrite Ht0, Hc0.
      split; [now apply stored_after_keys | assumption].
Qed.

(** * Further properties *)

(** ** The probe on the wire *)

(** A probe that runs through every step sends, after the connection to
    port 25 of the host, the four commands EHLO, MAIL FROM, RCPT TO and
    QUIT in this order, closes the connection and sends nothing else; the
    count of open connections is as before. *)
Theorem completed_probe_follows_script rt E addr mx_host w chosen :
  nth_error sender_configs (current_sender w) = Some chosen ->
  exchange_completes rt E addr mx_host = true ->
  trace (snd (smtp_verify rt E addr mx_host w))
  = trace w ++ smtp_script rt chosen addr mx_host
  /\ sockets (snd (smtp_verify rt E addr mx_host w)) = sockets w.
Proof.
  intros Hn Hok.
  destruct (configured_commands_encode rt chosen (nth_error_In _ _ Hn))
    as [Hehlo Hmail].
  unfold exchange_completes, rcpt_command in Hok. cbv zeta in Hok.
  apply andb_true_iff in Hok as [Hok Hquit].
  apply andb_true_iff in Hok as [Hok Hreply].
  apply andb_true_iff in Hok as [Hok Hrcptd].
  apply andb_true_iff in Hok as [Hok Hrcpt].
  apply andb_true_iff in Hok as [Hok Hmailr].
  apply andb_true_iff in Hok as [Hok Hmaild].
  apply andb_true_iff in Hok as [Hok Hehlor].
  apply andb_true_iff in Hok as [Hok Hehlod].
  apply andb_true_iff in Hok as [Hconn Hgreet].
  apply arrived_done in Hquit as [[] Hquit], Hrcptd as [[] Hrcptd],
    Hmailr as [mail_reply Hmailr],
    Hmaild as [[] Hmaild], Hehlor as [ehlo_reply Hehlor],
    Hehlod as [[] Hehlod], Hconn as [[] Hconn].
  apply succeeded_inr in Hrcpt as [rcpt_cmd Hrcpt].
  destruct (on_greeting (peer E mx_host)) as [welcome| |] eqn:Hg;
    [|discriminate|discriminate].
  destruct (on_rcpt_reply (peer E mx_host)) as [raw| |] eqn:Hr;
    [|discriminate|discriminate].
  apply succeeded_inr in Hreply as [decoded Hdec].
  unfold smtp_verify, smtp_script. unfold_monad.
  rewrite Hn. cbv beta iota zeta.
  rewrite Hconn, Hg. cbv beta iota zeta.
  rewrite Hgreet. cbv beta iota zeta delta [negb].
  rewrite Hehlo, Hehlod, Hehlor, Hmail, Hmaild, Hmailr, Hrcpt, Hrcptd, Hr,
    Hdec, Hquit.
  cbv beta iota zeta.
  destruct (on_wait_closed (peer E mx_host)) as [[] | e | e];
    cbv beta iota zeta;
    cbn [snd trace sockets log set_sockets set_current_sender Nat.pred];
    repeat rewrite <- app_assoc; split; reflexivity.
Qed.

Lemma completed_probe_follows_script_witness :
  trace (snd (smtp_verify ascii_runtime accepting_env (u"user@example.org")
                (u"mx1.example.org") (init [])))
  = trace (init [])
    ++ smtp_script ascii_runtime
         {| sender_email := u"validator@emailcheck.tech";
            sender_helo := u"mail-validator-1.emailcheck.tech" |}
         (u"user@example.org") (u"mx1.example.org")
  /\ sockets (snd (smtp_verify ascii_runtime accepting_env
                     (u"user@example.org") (u"mx1.example.org") (init [])))
     = sockets (init []).
Proof.
  apply (completed_probe_follows_script ascii_runtime accepting_env
           (u"user@example.org") (u"mx1.example.org") (init [])).
  - reflexivity.
  - vm_compute. reflexivity.
Defined.

(** Whatever the host does, what a probe puts on the wire is an initial
    part of that script: after the connect at most four writes, the
    payloads of EHLO, MAIL FROM, RCPT TO and QUIT in this order, and
    then the close.  The payload of RCPT TO is the encoded text of
    [RCPT TO:<], the address as given and [>] with the line end; the
    address is not escaped. *)
Theorem probe_sends_initial_part_of_script rt E addr mx_host w chosen :
  nth_error sender_configs (current_sender w) = Some chosen ->
  exists k,
    trace (snd (smtp_verify rt E addr mx_host w))
    = trace w ++ firstn k (smtp_script rt chosen addr mx_host).
Proof.
  intro Hn.
  destruct (configured_commands_encode rt chosen (nth_error_In _ _ Hn))
    as [Hehlo Hmail].
  unfold smtp_verify, smtp_script. unfold_monad.
  rewrite Hn. cbv beta iota zeta. rewrite Hehlo, Hmail.
  repeat case_step.
  all: cbn [snd trace log set_sockets set_current_sender];
    repeat rewrite <- app_assoc;
    first [ exists 0; cbn [firstn]; now rewrite app_nil_r
          | exists 1; reflexivity
          | exists 2; reflexivity
          | exists 3; reflexivity
          | exists 4; reflexivity
          | exists 5; reflexivity
          | exists 6; reflexivity ].
Qed.

Lemma probe_sends_initial_part_of_script_witness :
  exists k,
    trace (snd (smtp_verify ascii_runtime refusing_env (u"user@example.org")
                  (u"mx1.example.org") (init [])))
    = trace (init [])
      ++ firstn k
           (smtp_script ascii_runtime
              {| sender_email := u"validator@emailcheck.tech";
                 sender_helo := u"mail-validator-1.emailcheck.tech" |}
              (u"user@example.org") (u"mx1.example.org")).
Proof.
  apply (probe_sends_initial_part_of_script ascii_runtime refusing_env
           (u"user@example.org") (u"mx1.example.org") (init [])).
  reflexivity.
Defined.

(** The address goes into the command as it is given: a line end in it
    ends the command, and the rest of the address is a line of its own
    in the same write. *)
Example rcpt_payload_is_not_escaped :
  filter (fun e => match e with TcpSend _ => true | _ => false end)
    (trace (snd (smtp_verify ascii_runtime accepting_env
                   (u"a@example.org>" ++ crlf ++ u"DATA" ++ crlf ++ u"<")
                   (u"mx1.example.org") (init []))))
  = [ TcpSend (u"EHLO mail-validator-1.emailcheck.tech" ++ crlf);
      TcpSend (u"MAIL FROM:<validator@emailcheck.tech>" ++ crlf);
      TcpSend (u"RCPT TO:<a@example.org>" ++ crlf
               ++ u"DATA" ++ crlf ++ u"<>" ++ crlf);
      TcpSend (u"QUIT" ++ crlf) ].
Proof. vm_compute. reflexivity. Qed.

(** With the cursor in range a probe never raises, whatever the host
    does: it returns a verdict that is true exactly with the code 250 or
    251, it has moved the cursor on by one, also when the exchange broke
    off, and it has left the table alone. *)
Theorem probe_always_answers rt E addr mx_host w :
  current_sender w < List.length sender_configs ->
  exists valid code text w',
    smtp_verify rt E addr mx_host w = (Return (valid, code, text), w')
    /\ (valid = true <-> code = 250%Z \/ code = 251%Z)
    /\ current_sender w'
       = (current_sender w + 1) mod List.length sender_configs
    /\ table w' = table w.
Proof.
  intro Hlt.
  destruct (nth_error sender_configs (current_sender w)) as [chosen|] eqn:Hn;
    [|apply nth_error_None in Hn; lia].
  unfold smtp_verify. unfold_monad. rewrite Hn. cbv beta iota zeta.
  repeat case_step.
  all: do 4 eexists; split; [reflexivity|].
  all: split; [|split; reflexivity].
  all: try (rewrite orb_true_iff, !Z.eqb_eq; tauto).
  all: split; [discriminate | intros [H | H]; discriminate H].
Qed.

Lemma probe_always_answers_witness :
  exists valid code text w',
    smtp_verify ascii_runtime refusing_env (u"user@example.org")
      (u"mx1.example.org") (init [])
    = (Return (valid, code, text), w')
    /\ (valid = true <-> code = 250%Z \/ code = 251%Z)
    /\ current_sender w'
       = (current_sender (init []) + 1) mod List.length sender_configs
    /\ table w' = table (init []).
Proof.
  apply (probe_always_answers ascii_runtime refusing_env
           (u"user@example.org") (u"mx1.example.org") (init [])).
  simpl. lia.
Defined.


(** ** Verdicts and codes *)

Lemma smtp_verify_verdict rt E addr mx_host w :
  match fst (smtp_verify rt E addr mx_host w) with
  | Return (valid, code, _) => valid = true <-> code = 250%Z \/ code = 251%Z
  | Raise _ => True
  end.
Proof.
  unfold smtp_verify. unfold_monad.
  repeat case_step.
  all: cbn [fst]; try exact I.
  all: try (rewrite orb_true_iff, !Z.eqb_eq; tauto).
  all: split; [discriminate | intros [H | H]; discriminate H].
Qed.

Lemma cache_lookup_some E addr t o :
  cache_lookup E addr t = Some o ->
  exists r, In r t /\ row_email r = addr /\ o = result_of_row r.
Proof.
  unfold cache_lookup. destruct (cutoff_is_date E); [|discriminate].
  destruct (select_fault E); [discriminate|].
  destruct (select_fresh addr (cutoff E) t) as [r|] eqn:Hs; [|discriminate].
  intros [= <-]. apply select_fresh_some in Hs as (Hin & Hk & _). eauto.
Qed.

Lemma miss_result_agrees rt E addr w :
  verdict_agrees (is_valid (miss_result rt E addr w))
    (status_code (miss_result rt E addr w))
  /\ (is_valid (miss_result rt E addr w) = true ->
      error_message (miss_result rt E addr w) = None
      /\ mx_records (miss_result rt E addr w) <> []).
Proof.
  unfold miss_result, verdict_agrees.
  destruct (is_valid_email_format addr).
  - destruct (mx_hosts E (domain_of rt addr)) as [|primary_mx rest].
    + cbn. split; [|discriminate].
      split; [discriminate | intros [H | H]; discriminate H].
    + pose proof (smtp_verify_verdict rt E addr primary_mx w) as Hv.
      destruct (fst (smtp_verify rt E addr primary_mx w))
        as [[[valid code] text]|e]; cbn.
      * split; [|intros _; split; [reflexivity | discriminate]].
        rewrite Hv. split; intros [H | H]; (left + right); congruence.
      * split; [|discriminate].
        split; [discriminate | intros [H | H]; discriminate H].
  - cbn. split; [|discriminate].
    split; [discriminate | intros [H | H]; discriminate H].
Qed.

Lemma stored_after_forall (P : row -> Prop) E r t :
  P r -> Forall P t -> Forall P (stored_after E r t).
Proof.
  intros Hr Ht. unfold stored_after, insert_or_replace.
  destruct (upsert_fault E); [assumption|].
  destruct (row_binds r); [|assumption].
  apply Forall_app. split; [|now constructor].
  rewrite Forall_forall in *. intros x Hx.
  apply filter_In in Hx as [Hx _]. auto.
Qed.

(** In every outcome [verify_email] returns, [is_valid] is true exactly
    when the status code is 250 or 251, as long as the rows already in
    the table are so; and the rows it leaves in the table are so again.
    A true verdict comes with no error message and with at least one MX
    host when it is not read from the cache. *)
Theorem verdict_and_code_agree rt E addr w :
  Forall row_agrees (table w) ->
  exists result w',
    verify_email rt E addr w = (Return result, w')
    /\ verdict_agrees (is_valid result) (status_code result)
    /\ Forall row_agrees (table w')
    /\ (cached result = false -> is_valid result = true ->
        error_message result = None /\ mx_records result <> []).
Proof.
  intro Hall.
  destruct (cache_lookup E addr (table w)) as [o|] eqn:Hl.
  - rewrite (verify_email_hit rt E addr w o Hl).
    apply cache_lookup_some in Hl as (r & Hin & _ & ->).
    do 2 eexists. split; [reflexivity|].
    rewrite Forall_forall in Hall. split; [exact (Hall r Hin)|].
    split; [|discriminate].
    rewrite (proj1 (looked_up_rest E addr w)). now apply Forall_forall.
  - destruct (verify_email_miss rt E addr w Hl) as (w1 & -> & Ht & _).
    destruct (miss_result_agrees rt E addr w) as [Hv Hrest].
    do 2 eexists. split; [reflexivity|]. split; [exact Hv|].
    split; [|intros _; exact Hrest].
    cbn [persist table set_table log]. rewrite Ht.
    now apply stored_after_forall.
Qed.

Lemma verdict_and_code_agree_witness :
  exists result w',
    verify_email ascii_runtime rejecting_env (u"user@example.org")
      (init [stale_row])
    = (Return result, w')
    /\ verdict_agrees (is_valid result) (status_code result)
    /\ Forall row_agrees (table w')
    /\ (cached result = false -> is_valid result = true ->
        error_message result = None /\ mx_records result <> []).
Proof.
  apply (verdict_and_code_agree ascii_runtime rejecting_env
           (u"user@example.org") (init [stale_row])).
  simpl. repeat constructor; intros; vm_compute; auto.
Defined.

(** ** Writing and reading back *)

Lemma find_app_none {A} (p : A -> bool) l1 l2 :
  find p l1 = None -> find p (l1 ++ l2) = find p l2.
Proof.
  induction l1 as [|x l1 IH]; simpl; [reflexivity|].
  destruct (p x); [discriminate | exact IH].
Qed.

Lemma find_app_keep {A} (p : A -> bool) l1 x :
  p x = false -> find p (l1 ++ [x]) = find p l1.
Proof.
  intro Hx. induction l1 as [|y l1 IH]; simpl.
  - now rewrite Hx.
  - destruct (p y); [reflexivity | exact IH].
Qed.

Lemma find_filter_compat {A} (p q : A -> bool) l :
  (forall x, p x = true -> q x = true) ->
  find p (filter q l) = find p l.
Proof.
  intro Hpq. induction l as [|x l IH]; simpl; [reflexivity|].
  destruct (q x) eqn:Hq; simpl.
  - destruct (p x); [reflexivity | exact IH].
  - destruct (p x) eqn:Hp; [|exact IH].
    apply Hpq in Hp. congruence.
Qed.

Lemma select_fresh_insert_same r c t :
  select_fresh (row_email r) c (insert_or_replace r t)
  = if (c <? row_timestamp r)%Z then Some r else None.
Proof.
  unfold select_fresh, insert_or_replace.
  rewrite find_app_none.
  - simpl. rewrite TextFacts.eqb_refl. simpl.
    destruct (c <? row_timestamp r)%Z; reflexivity.
  - destruct (find _ (filter _ t)) as [x|] eqn:Hf; [|reflexivity].
    apply find_some in Hf as [Hin Hx]. apply filter_In in Hin as [_ Hne].
    apply andb_true_iff in Hx as [Hk _]. rewrite Hk in Hne. discriminate.
Qed.

Lemma select_fresh_insert_other key r c t :
  Text.eqb (row_email r) key = false ->
  select_fresh key c (insert_or_replace r t) = select_fresh key c t.
Proof.
  intro Hne. unfold select_fresh, insert_or_replace.
  rewrite find_app_keep by (now rewrite Hne).
  apply find_filter_compat. intros x Hx.
  apply andb_true_iff in Hx as [Hk _]. apply TextFacts.eqb_eq in Hk.
  apply negb_true_iff. destruct (Text.eqb (row_email x) (row_email r)) eqn:Hxr;
    [|reflexivity].
  apply TextFacts.eqb_eq in Hxr. rewrite <- Hxr, Hk, TextFacts.eqb_refl in Hne.
  discriminate.
Qed.



(** A status code beyond 64 bits is not stored: the write raises, the
    error is swallowed and the table stays as it was. *)
Example oversized_status_code_is_not_stored :
  let result :=
    {| email := u"user@example.org"; is_valid := false;
       status_code := Some 9223372036854775808%Z;
       server_response := []; mx_records := [];
       verification_time := 4; timestamp := 63865000000000001;
       error_message := None; cached := false |} in
  cache_result accepting_env result (init [])
  = (Return tt,
     {| table := []; current_sender := 0; sockets := 0;
        trace := [SqlUpsert (row_of_result result)] |}).
Proof. vm_compute. reflexivity. Qed.

Lemma miss_result_timestamp rt E addr w :
  timestamp (miss_result rt E addr w) = clock_result E.
Proof.
  unfold miss_result, probe_outcome.
  destruct (is_valid_email_format addr); [|reflexivity].
  destruct (mx_hosts E (domain_of rt addr)); [reflexivity|].
  destruct (fst _) as [[[valid code] text]|e]; reflexivity.
Qed.



(** Once the cache duration has passed, the row is not served any more:
    the next call verifies afresh, stamps its outcome with the time of
    that call and, with the write working, leaves it as the only row of
    the address. *)
Theorem expired_entry_is_verified_again rt E1 E2 addr w w2 :
  fst (get_cached_result E1 addr w) = Return None ->
  upsert_fault E1 = None ->
  (cache_duration E2 <= clock_lookup E2 - clock_result E1)%Z ->
  table w2 = table (snd (verify_email rt E1 addr w)) ->
  exists again w2',
    verify_email rt E2 addr w2 = (Return again, w2')
    /\ cached again = false
    /\ timestamp again = clock_result E2
    /\ upserts (trace w2') = upserts (trace w2) ++ [row_of_result again]
    /\ (upsert_fault E2 = None ->
        rows_for addr (table w2') = [row_of_result again]).
Proof.
  intros Hmiss Hup Hage Htable. apply lookup_miss in Hmiss.
  destruct (verify_email_miss rt E1 addr w Hmiss) as (w1 & Hrun & Ht & _).
  rewrite Hrun in Htable. cbn [snd persist table set_table log] in Htable.
  assert (Hl2 : cache_lookup E2 addr (table w2) = None).
  { rewrite Htable. unfold cache_lookup, stored_after.
    rewrite Hup, miss_result_binds.
    destruct (cutoff_is_date E2); [|reflexivity].
    destruct (select_fault E2); [reflexivity|].
    pose proof (miss_result_email rt E1 addr w) as Hemail.
    pose proof (miss_result_timestamp rt E1 addr w) as Hstamp.
    set (r := row_of_result (miss_result rt E1 addr w)) in *.
    assert (Hk : row_email r = addr) by exact Hemail.
    assert (Hts : row_timestamp r = clock_result E1) by exact Hstamp.
    rewrite <- Hk at 1. rewrite select_fresh_insert_same.
    unfold cutoff. rewrite Hts.
    destruct (Z.ltb_spec (clock_lookup E2 - cache_duration E2)
                (clock_result E1)); [lia | reflexivity]. }
  destruct (verify_email_miss rt E2 addr w2 Hl2)
    as (w3 & Hrun2 & Ht2 & events & Htr & Hev).
  do 2 eexists. split; [exact Hrun2|].
  split; [apply miss_result_uncached|].
  split; [apply miss_result_timestamp|].
  cbn [persist trace table set_table log]. split.
  - rewrite Htr, !upserts_app, Hev.
    replace (upserts (lookup_events E2 addr)) with (@nil row)
      by (unfold lookup_events; now destruct (cutoff_is_date E2)).
    cbn. now rewrite app_nil_r.
  - intro Hup2. unfold stored_after. rewrite Hup2, miss_result_binds.
    pose proof (miss_result_email rt E2 addr w2) as Hemail.
    assert (Hk : row_email (row_of_result (miss_result rt E2 addr w2)) = addr)
      by exact Hemail.
    rewrite <- Hk at 1. apply rows_for_insert_or_replace.
Qed.

Lemma expired_entry_is_verified_again_witness :
  exists again w2',
    verify_email ascii_runtime next_day_env (u"user@example.org")
      (init [accepted_row])
    = (Return again, w2')
    /\ cached again = false
    /\ timestamp again = clock_result next_day_env
    /\ upserts (trace w2')
       = upserts (trace (init [accepted_row])) ++ [row_of_result again]
    /\ (upsert_fault next_day_env = None ->
        rows_for (u"user@example.org") (table w2') = [row_of_result again]).
Proof.
  apply (expired_entry_is_verified_again ascii_runtime accepting_env
           next_day_env (u"user@example.org") (init [])
           (init [accepted_row])).
  - vm_compute. reflexivity.
  - reflexivity.
  - vm_compute. discriminate.
  - vm_compute. reflexivity.
Defined.

(** A call for one address leaves what the cache holds for every other
    address as it was, whatever the call did and whether its write went
    through. *)
Theorem other_addresses_are_untouched rt E1 E2 addr other w :
  Text.eqb addr other = false ->
  fst (get_cached_result E2 other (snd (verify_email rt E1 addr w)))
  = fst (get_cached_result E2 other w).
Proof.
  intro Hne. rewrite !get_cached_result_run. cbn [fst]. f_equal.
  destruct (cache_lookup E1 addr (table w)) as [o|] eqn:Hl.
  - rewrite (verify_email_hit rt E1 addr w o Hl). cbn [snd].
    now rewrite (proj1 (looked_up_rest E1 addr w)).
  - destruct (verify_email_miss rt E1 addr w Hl) as (w1 & -> & Ht & _).
    cbn [snd persist table set_table log]. rewrite Ht.
    unfold cache_lookup, stored_after.
    destruct (cutoff_is_date E2); [|reflexivity].
    destruct (select_fault E2); [reflexivity|].
    destruct (upsert_fault E1); [reflexivity|].
    rewrite miss_result_binds.
    rewrite select_fresh_insert_other; [reflexivity|].
    change (row_email (row_of_result (miss_result rt E1 addr w)))
      with (email (miss_result rt E1 addr w)).
    now rewrite miss_result_email.
Qed.

Lemma other_addresses_are_untouched_witness :
  fst (get_cached_result accepting_env (u"not-an-address")
         (snd (verify_email ascii_runtime accepting_env (u"user@example.org")
                 (init [fresh_row]))))
  = fst (get_cached_result accepting_env (u"not-an-address")
           (init [fresh_row])).
Proof.
  apply (other_addresses_are_untouched ascii_runtime accepting_env
           accepting_env (u"user@example.org") (u"not-an-address")
           (init [fresh_row])).
  vm_compute. reflexivity.
Defined.

(** ** One probe at most, of the first MX host *)

Lemma smtp_verify_connects rt E addr mx_host w :
  exists events,
    trace (snd (smtp_verify rt E addr mx_host w)) = trace w ++ events
    /\ List.length (filter is_connect events) <= 1
    /\ forall host port,
         In (TcpConnect host port) events -> host = mx_host /\ port = 25%N.
Proof.
  unfold smtp_verify. unfold_monad.
  repeat case_step.
  all: cbn [snd trace log set_sockets set_current_sender];
    repeat rewrite <- app_assoc.
  all: first
    [ eexists; split; [reflexivity|]; split; [cbn; lia|];
      intros host port Hin; cbn [In app] in Hin;
      repeat (destruct Hin as [Hin | Hin]; try discriminate Hin);
      [injection Hin as <- <-; split; reflexivity | contradiction]
    | exists []; rewrite app_nil_r; split; [reflexivity|];
      split; [cbn; lia | intros host port []] ].
Qed.

Lemma reaches_probe_spec rt E addr w :
  reaches_probe rt E addr w = true <->
  cache_lookup E addr (table w) = None
  /\ is_valid_email_format addr = true
  /\ exists primary_mx rest,
       mx_hosts E (domain_of rt addr) = primary_mx :: rest.
Proof.
  unfold reaches_probe.
  rewrite get_cached_result_run, get_mx_records_run. cbn [fst].
  destruct (cache_lookup E addr (table w)).
  - split; [discriminate | intros [H _]; discriminate H].
  - destruct (is_valid_email_format addr); cbn [andb].
    + destruct (mx_hosts E (domain_of rt addr)) as [|primary_mx rest].
      * split; [discriminate | intros (_ & _ & ? & ? & H); discriminate H].
      * split; [eauto | reflexivity].
    + split; [discriminate | intros (_ & H & _); discriminate H].
Qed.

Lemma lookup_events_no_connect E addr :
  filter is_connect (lookup_events E addr) = []
  /\ forall host port, ~ In (TcpConnect host port) (lookup_events E addr).
Proof.
  unfold lookup_events. destruct (cutoff_is_date E); split;
    try reflexivity; intros host port Hin; cbn [In] in Hin;
    repeat (destruct Hin as [Hin | Hin]; try discriminate Hin);
    contradiction.
Qed.

(** A call opens at most one connection, and only when it gets as far as
    the probe: to port 25 of the first host [get_mx_records] returned.
    The other hosts are never tried. *)
Theorem connects_once_to_first_mx rt E addr w :
  exists events,
    trace (snd (verify_email rt E addr w)) = trace w ++ events
    /\ List.length (filter is_connect events) <= 1
    /\ forall host port,
         In (TcpConnect host port) events ->
         port = 25%N
         /\ reaches_probe rt E addr w = true
         /\ exists rest,
              fst (get_mx_records E (domain_of rt addr) w)
              = Return (host :: rest).
Proof.
  destruct (lookup_events_no_connect E addr) as [Hnone Hnot].
  destruct (cache_lookup E addr (table w)) as [o|] eqn:Hl.
  - rewrite (verify_email_hit rt E addr w o Hl).
    exists (lookup_events E addr). split; [apply looked_up_trace|].
    split; [rewrite Hnone; cbn; lia|].
    intros host port Hin. destruct (Hnot host port Hin).
  - destruct (is_valid_email_format addr) eqn:Hf.
    + destruct (mx_hosts E (domain_of rt addr)) as [|primary_mx rest] eqn:Hmx.
      * rewrite (verify_email_no_mx rt E addr w Hl Hf Hmx).
        eexists. cbn [snd persist trace set_table log].
        rewrite looked_up_trace, <- !app_assoc. split; [reflexivity|].
        split; [rewrite filter_app, Hnone; cbn; lia|].
        intros host port Hin.
        apply in_app_or in Hin as [Hin | Hin];
          [destruct (Hnot host port Hin)|].
        cbn [In app] in Hin.
        repeat (destruct Hin as [Hin | Hin]; try discriminate Hin).
        contradiction.
      * rewrite (verify_email_probe rt E addr w primary_mx rest Hl Hf Hmx).
        cbv zeta. cbn [snd persist trace set_table log].
        set (w0 := log _ (looked_up E addr w)).
        destruct (smtp_verify_connects rt E addr primary_mx w0)
          as (events & Htr & Hlen & Hhost).
        rewrite Htr. unfold w0 at 1. cbn [trace log].
        rewrite looked_up_trace.
        exists (lookup_events E addr
                ++ [DnsQuery (domain_of rt addr)] ++ events
                ++ [SqlUpsert
                      (row_of_result
                         (probe_outcome E addr (primary_mx :: rest)
                            (fst (smtp_verify rt E addr primary_mx w0))))]).
        split; [now rewrite <- !app_assoc|]. split.
        -- rewrite filter_app, Hnone.
           cbn [app filter is_connect]. rewrite filter_app. cbn.
           rewrite app_nil_r. exact Hlen.
        -- intros host port Hin.
           apply in_app_or in Hin as [Hin | Hin];
             [destruct (Hnot host port Hin)|].
           cbn [In app] in Hin.
           destruct Hin as [Hin | Hin]; try discriminate Hin.
           apply in_app_or in Hin as [Hin | [Hin | []]];
             [|discriminate Hin].
           destruct (Hhost host port Hin) as [-> ->].
           split; [reflexivity|]. split.
           ++ apply reaches_probe_spec. eauto.
           ++ exists rest. rewrite get_mx_records_run. cbn [fst].
              now rewrite Hmx.
    + rewrite (verify_email_malformed rt E addr w Hl Hf).
      eexists. cbn [snd persist trace set_table log].
      rewrite looked_up_trace, <- !app_assoc. split; [reflexivity|].
      split; [rewrite filter_app, Hnone; cbn; lia|].
      intros host port Hin.
      apply in_app_or in Hin as [Hin | Hin];
        [destruct (Hnot host port Hin)|].
      cbn [In app] in Hin.
      repeat (destruct Hin as [Hin | Hin]; try discriminate Hin).
      contradiction.
Qed.

(** A call moves the sender cursor on by one exactly when it gets as far
    as the probe, whether the probe then succeeds or not; a hit of the
    cache, a malformed address and a domain without MX host leave the
    cursor where it was. *)
Theorem cursor_moves_with_the_probe rt E addr w :
  current_sender w < List.length sender_configs ->
  current_sender (snd (verify_email rt E addr w))
  = if reaches_probe rt E addr w
    then (current_sender w + 1) mod List.length sender_configs
    else current_sender w.
Proof.
  intro Hlt.
  destruct (looked_up_rest E addr w) as (_ & Hc0 & _).
  destruct (reaches_probe rt E addr w) eqn:Hr.
  - apply reaches_probe_spec in Hr as (Hl & Hf & primary_mx & rest & Hmx).
    rewrite (verify_email_probe rt E addr w primary_mx rest Hl Hf Hmx).
    cbv zeta. cbn [snd persist current_sender set_table log].
    rewrite smtp_verify_moves_cursor
      by (cbn [current_sender log]; now rewrite Hc0).
    cbn [current_sender log]. now rewrite Hc0.
  - destruct (cache_lookup E addr (table w)) as [o|] eqn:Hl.
    + now rewrite (verify_email_hit rt E addr w o Hl).
    + destruct (is_valid_email_format addr) eqn:Hf.
      * destruct (mx_hosts E (domain_of rt addr)) as [|primary_mx rest] eqn:Hmx.
        -- now rewrite (verify_email_no_mx rt E addr w Hl Hf Hmx).
        -- assert (Hyes : reaches_probe rt E addr w = true)
             by (apply reaches_probe_spec; eauto).
           congruence.
      * now rewrite (verify_email_malformed rt E addr w Hl Hf).
Qed.

Lemma cursor_moves_with_the_probe_witness :
  current_sender (snd (verify_email ascii_runtime refusing_env
                         (u"user@example.org") (init [])))
  = if reaches_probe ascii_runtime refusing_env (u"user@example.org") (init [])
    then (current_sender (init []) + 1) mod List.length sender_configs
    else current_sender (init []).
Proof.
  apply (cursor_moves_with_the_probe ascii_runtime refusing_env
           (u"user@example.org") (init [])).
  simpl. lia.
Defined.

(** ** What an accepted address is made of *)

Lemma local_class_ascii c : local_class c = true -> Text.is_ascii c = true.
Proof.
  unfold local_class, is_letter, is_digit, Text.in_range, Text.is_ascii.
  intro H. apply N.ltb_lt. class_bounds H; lia.
Qed.

Lemma domain_class_ascii c : domain_class c = true -> Text.is_ascii c = true.
Proof.
  unfold domain_class, is_letter, is_digit, Text.in_range, Text.is_ascii.
  intro H. apply N.ltb_lt. class_bounds H; lia.
Qed.

Lemma is_letter_domain_class c : is_letter c = true -> domain_class c = true.
Proof. unfold domain_class. intros ->. reflexivity. Qed.

Lemma after_at_ascii c : after_at c = true -> Text.is_ascii c = true.
Proof.
  unfold after_at. intro H. apply orb_true_iff in H as [H | H].
  - now apply domain_class_ascii.
  - apply N.eqb_eq in H. now subst.
Qed.

Lemma after_at_not_at c : after_at c = true -> negb (c =? 64)%N = true.
Proof.
  unfold after_at. intro H. apply orb_true_iff in H as [H | H].
  - now apply domain_class_not_at.
  - apply N.eqb_eq in H. now subst.
Qed.

Lemma accepted_address_split s :
  is_valid_email_format s = true ->
  exists local rest,
    s = local ++ 64%N :: rest
    /\ local <> [] /\ rest <> []
    /\ forallb local_class local = true
    /\ forallb after_at rest = true.
Proof.
  intro H. apply is_valid_email_format_spec in H.
  assert (Hshape : forall t, address_shape t ->
            exists local rest,
              t = local ++ 64%N :: rest /\ local <> [] /\ rest <> []
              /\ forallb local_class local = true
              /\ forallb domain_class rest = true).
  { intros t (local & run & final & -> & Hl1 & Hl2 & Hr1 & Hr2 & Hf1 & Hf2).
    exists local, (run ++ [46%N] ++ final). repeat split; try assumption.
    - destruct run; [congruence | discriminate].
    - rewrite !forallb_app, Hr2. cbn [forallb andb].
      replace (domain_class 46) with true by reflexivity. cbn [andb].
      exact (forallb_impl _ _ _ is_letter_domain_class Hf2). }
  destruct H as [H | (s' & -> & H)];
    apply Hshape in H as (local & rest & -> & Hl & Hr & Hlc & Hrc).
  - exists local, rest. repeat split; try assumption.
    apply (forallb_impl domain_class); [|assumption].
    unfold after_at. now intros c ->.
  - exists local, (rest ++ [10%N]). repeat split; try assumption.
    + now rewrite <- app_assoc.
    + destruct rest; discriminate.
    + rewrite forallb_app. apply andb_true_iff. split; [|reflexivity].
      apply (forallb_impl domain_class); [|assumption].
      unfold after_at. now intros c ->.
Qed.

(** An accepted address is plain ASCII with exactly one at sign: a
    non-empty local part, the at sign and a non-empty rest, which are the
    two pieces [split('@')] gives.  So the domain that is resolved is
    that rest with its capital letters lowered, whatever the locale
    tables say, and the RCPT TO command always encodes. *)
Theorem accepted_address_parts rt s :
  is_valid_email_format s = true ->
  forallb Text.is_ascii s = true
  /\ exists local rest,
       s = local ++ 64%N :: rest
       /\ Text.split 64 s = [local; rest]
       /\ local <> [] /\ rest <> []
       /\ domain_of rt s = map Py.ascii_lower rest
       /\ Py.encode rt (rcpt_command s) = inr (rcpt_command s).
Proof.
  intro H.
  destruct (accepted_address_split s H)
    as (local & rest & -> & Hl & Hr & Hlc & Hrc).
  assert (Hla : forallb Text.is_ascii local = true)
    by exact (forallb_impl _ _ _ local_class_ascii Hlc).
  assert (Hra : forallb Text.is_ascii rest = true)
    by exact (forallb_impl _ _ _ after_at_ascii Hrc).
  assert (Hln : forallb (fun c => negb (c =? 64)%N) local = true)
    by exact (forallb_impl _ _ _ local_class_not_at Hlc).
  assert (Hrn : forallb (fun c => negb (c =? 64)%N) rest = true)
    by exact (forallb_impl _ _ _ after_at_not_at Hrc).
  assert (Hall : forallb Text.is_ascii (local ++ 64%N :: rest) = true).
  { rewrite forallb_app. cbn [forallb]. now rewrite Hla, Hra. }
  assert (Hsplit : Text.split 64 (local ++ 64%N :: rest) = [local; rest]).
  { rewrite (TextFacts.split_app_sep _ _ _ Hln).
    now rewrite (TextFacts.split_no_sep _ _ Hrn). }
  split; [exact Hall|].
  exists local, rest. repeat split; try assumption.
  - unfold domain_of. rewrite Hsplit. cbn [nth_error].
    unfold Py.lower. now rewrite Hra.
  - unfold Py.encode, rcpt_command.
    rewrite !forallb_app. cbn [forallb]. rewrite Hla, Hra. reflexivity.
Qed.

Lemma accepted_address_parts_witness :
  forallb Text.is_ascii (u"user@Example.ORG") = true
  /\ exists local rest,
       u"user@Example.ORG" = local ++ 64%N :: rest
       /\ Text.split 64 (u"user@Example.ORG") = [local; rest]
       /\ local <> [] /\ rest <> []
       /\ domain_of ascii_runtime (u"user@Example.ORG")
          = map Py.ascii_lower rest
       /\ Py.encode ascii_runtime (rcpt_command (u"user@Example.ORG"))
          = inr (rcpt_command (u"user@Example.ORG")).
Proof.
  apply (accepted_address_parts ascii_runtime (u"user@Example.ORG")).
  vm_compute. reflexivity.
Defined.

(** ** The check does not look at the case of letters *)

Lemma deriv_respects f r c :
  respects f r ->
  Re.deriv (f c) r = Re.deriv c r /\ respects f (Re.deriv c r).
Proof.
  induction r as [| | p | r1 IH1 r2 IH2 | r1 IH1 r2 IH2 | r1 IH1]; simpl.
  - auto.
  - auto.
  - intro Hp. rewrite Hp. destruct (p c); simpl; auto.
  - intros [H1 H2]. destruct (IH1 H1) as [E1 R1], (IH2 H2) as [E2 R2].
    rewrite E1, E2. destruct (Re.nullable r1); simpl; auto.
  - intros [H1 H2]. destruct (IH1 H1) as [E1 R1], (IH2 H2) as [E2 R2].
    rewrite E1, E2. simpl. auto.
  - intro H1. destruct (IH1 H1) as [E1 R1]. rewrite E1. simpl. auto.
Qed.

Lemma fullmatch_respects f s : forall r,
  respects f r -> Re.fullmatch r (map f s) = Re.fullmatch r s.
Proof.
  induction s as [|c s IH]; intros r Hr; simpl; [reflexivity|].
  destruct (deriv_respects f r c Hr) as [-> Hd]. now apply IH.
Qed.

Lemma chop_newline_map f s :
  (forall c, (f c =? 10)%N = (c =? 10)%N) ->
  Re.chop_newline (map f s) = option_map (map f) (Re.chop_newline s).
Proof.
  intro Hf. induction s as [|c s IH]; [reflexivity|].
  destruct s as [|c' s'].
  - simpl. rewrite Hf. destruct (c =? 10)%N; reflexivity.
  - change (map f (c :: c' :: s')) with (f c :: f c' :: map f s').
    rewrite !ReFacts.chop_newline_cons.
    change (f c' :: map f s') with (map f (c' :: s')). rewrite IH.
    destruct (Re.chop_newline (c' :: s')); reflexivity.
Qed.

Lemma in_range_spec lo hi c :
  Text.in_range lo hi c = true <-> (lo <= c /\ c <= hi)%N.
Proof.
  unfold Text.in_range. now rewrite andb_true_iff, !N.leb_le.
Qed.

Lemma in_range_false lo hi c :
  Text.in_range lo hi c = false <-> (c < lo \/ hi < c)%N.
Proof.
  unfold Text.in_range. rewrite andb_false_iff, !N.leb_gt. tauto.
Qed.

Lemma ascii_lower_cases c :
  (Text.in_range 65 90 c = true /\ Py.ascii_lower c = (c + 32)%N)
  \/ (Text.in_range 65 90 c = false /\ Py.ascii_lower c = c).
Proof.
  unfold Py.ascii_lower. destruct (Text.in_range 65 90 c); auto.
Qed.

Lemma in_range_true lo hi c :
  (lo <= c)%N -> (c <= hi)%N -> Text.in_range lo hi c = true.
Proof. intros. now apply in_range_spec. Qed.

Lemma in_range_out lo hi c :
  (c < lo \/ hi < c)%N -> Text.in_range lo hi c = false.
Proof. intros. now apply in_range_false. Qed.

Lemma eqb_out a c : (c <> a)%N -> (c =? a)%N = false.
Proof. intros. now apply N.eqb_neq. Qed.

Lemma is_letter_lower c : is_letter (Py.ascii_lower c) = is_letter c.
Proof.
  unfold is_letter.
  destruct (ascii_lower_cases c) as [[Hu ->] | [_ ->]]; [|reflexivity].
  rewrite Hu. apply in_range_spec in Hu.
  rewrite (in_range_true 97 122) by lia. now rewrite orb_true_r.
Qed.

Lemma is_digit_lower c : is_digit (Py.ascii_lower c) = is_digit c.
Proof.
  unfold is_digit.
  destruct (ascii_lower_cases c) as [[Hu ->] | [_ ->]]; [|reflexivity].
  apply in_range_spec in Hu.
  now rewrite !in_range_out by lia.
Qed.

Lemma eqb_lower a c :
  (a < 65 \/ 122 < a \/ (90 < a /\ a < 97))%N ->
  (Py.ascii_lower c =? a)%N = (c =? a)%N.
Proof.
  intro Ha.
  destruct (ascii_lower_cases c) as [[Hu ->] | [_ ->]]; [|reflexivity].
  apply in_range_spec in Hu.
  now rewrite !eqb_out by lia.
Qed.

Lemma email_pattern_respects_lower : respects Py.ascii_lower email_pattern.
Proof.
  assert (Hl : forall c, local_class (Py.ascii_lower c) = local_class c).
  { intro c. unfold local_class.
    now rewrite is_letter_lower, is_digit_lower, !eqb_lower by lia. }
  assert (Hd : forall c, domain_class (Py.ascii_lower c) = domain_class c).
  { intro c. unfold domain_class.
    now rewrite is_letter_lower, is_digit_lower, !eqb_lower by lia. }
  assert (Hlit : forall a c,
             (a < 65 \/ 122 < a \/ (90 < a /\ a < 97))%N ->
             N.eqb a (Py.ascii_lower c) = N.eqb a c).
  { intros a c Ha. rewrite !(N.eqb_sym a). now apply eqb_lower. }
  unfold email_pattern, Re.Plus, Re.AtLeast2, Re.Lit. cbn [respects].
  repeat split; try assumption; try (intro c; apply is_letter_lower);
    intro c; apply Hlit; lia.
Qed.

(** [is_valid_email_format] gives the same answer for an address and for
    the address with its capital letters lowered. *)
Theorem format_check_ignores_case s :
  is_valid_email_format (map Py.ascii_lower s) = is_valid_email_format s.
Proof.
  unfold is_valid_email_format, Re.match_to_dollar.
  rewrite (fullmatch_respects _ _ _ email_pattern_respects_lower).
  rewrite chop_newline_map by (intro c; apply eqb_lower; lia).
  destruct (Re.chop_newline s) as [s'|]; cbn [option_map]; [|reflexivity].
  now rewrite (fullmatch_respects _ _ _ email_pattern_respects_lower).
Qed.

(** ** Which host comes first *)

Lemma insert_by_filter {A} (key : A -> N) (p : N) x l :
  filter (fun y => (key y =? p)%N) (insert_by key x l)
  = filter (fun y => (key y =? p)%N) (x :: l).
Proof.
  induction l as [|y l IH]; [reflexivity|].
  cbn [insert_by]. destruct (N.leb_spec (key x) (key y)) as [Hle | Hgt];
    [reflexivity|].
  cbn [filter] in *. rewrite IH.
  destruct (N.eqb_spec (key x) p) as [Hx | Hx]; [|reflexivity].
  destruct (N.eqb_spec (key y) p) as [Hy | Hy]; [lia | reflexivity].
Qed.

Lemma sorted_filter {A} (key : A -> N) (p : N) l :
  filter (fun y => (key y =? p)%N) (sorted key l)
  = filter (fun y => (key y =? p)%N) l.
Proof.
  induction l as [|x l IH]; [reflexivity|].
  cbn [sorted fold_right]. fold (sorted key l).
  rewrite insert_by_filter. cbn [filter]. now rewrite IH.
Qed.

Lemma hd_insert_by {A} (key : A -> N) x l :
  hd_error (insert_by key x l)
  = match hd_error l with
    | None => Some x
    | Some y => if (key x <=? key y)%N then Some x else Some y
    end.
Proof.
  destruct l as [|y l]; [reflexivity|].
  cbn [insert_by hd_error]. destruct (key x <=? key y)%N; reflexivity.
Qed.

Lemma find_ext_in {A} (p q : A -> bool) l :
  (forall x, In x l -> p x = q x) -> find p l = find q l.
Proof.
  induction l as [|x l IH]; intro H; [reflexivity|].
  cbn [find]. rewrite (H x (or_introl eq_refl)).
  destruct (q x); [reflexivity|].
  apply IH. intros y Hy. apply H. now right.
Qed.

Lemma hd_sorted_is_first_least answer :
  hd_error (sorted preference answer) = find (is_least answer) answer.
Proof.
  induction answer as [|x l IH]; [reflexivity|].
  cbn [sorted fold_right]. fold (sorted preference l).
  rewrite hd_insert_by, IH.
  unfold is_least at 2. cbn [find forallb]. rewrite N.leb_refl. cbn [andb].
  fold (is_least l x).
  destruct (find (is_least l) l) as [y|] eqn:Hy.
  - destruct (find_some _ _ Hy) as [Hin Hmin].
    unfold is_least in Hmin. rewrite forallb_forall in Hmin.
    destruct (N.leb_spec (preference x) (preference y)) as [Hle | Hgt].
    + replace (is_least l x) with true; [reflexivity|].
      symmetry. apply forallb_forall. intros z Hz. apply N.leb_le.
      specialize (Hmin z Hz). apply N.leb_le in Hmin. lia.
    + replace (is_least l x) with false.
      * rewrite <- Hy. apply find_ext_in. intros z Hz.
        unfold is_least. cbn [forallb].
        destruct (forallb (fun other => (preference z <=? preference other)%N) l)
          eqn:Hz_min; [|now rewrite andb_false_r].
        rewrite andb_true_r. symmetry. apply N.leb_le.
        rewrite forallb_forall in Hz_min.
        specialize (Hz_min y Hin). apply N.leb_le in Hz_min. lia.
      * symmetry. apply not_true_is_false. intro Hx.
        unfold is_least in Hx. rewrite forallb_forall in Hx.
        specialize (Hx y Hin). apply N.leb_le in Hx. lia.
  - destruct l as [|z l']; [reflexivity|].
    exfalso. destruct (sorted preference (z :: l')) as [|h t] eqn:Hs.
    + pose proof (sorted_perm preference (z :: l')) as Hp.
      rewrite Hs in Hp. apply Permutation_sym in Hp.
      now apply Permutation_nil_cons in Hp.
    + rewrite <- IH in Hy. discriminate.
Qed.

(** When the resolver answers, [get_mx_records] returns one host for each
    record of the answer; records of equal preference keep the order the
    resolver gave them; and the first host, the one [verify_email]
    probes, is that of the first record of the answer that no record
    undercuts in preference. *)
Theorem first_host_is_first_least_preferred E domain w answer :
  dns E domain = inr answer ->
  exists ordered,
    fst (get_mx_records E domain w) = Return (map host_of ordered)
    /\ List.length ordered = List.length answer
    /\ (forall p,
          filter (fun mx => (preference mx =? p)%N) ordered
          = filter (fun mx => (preference mx =? p)%N) answer)
    /\ hd_error (map host_of ordered)
       = option_map host_of (find (is_least answer) answer).
Proof.
  intro Hdns. rewrite get_mx_records_run. cbn [fst].
  unfold mx_hosts. rewrite Hdns.
  exists (sorted preference answer). split; [reflexivity|].
  split; [symmetry; apply Permutation_length, sorted_perm|].
  split; [intro p; apply sorted_filter|].
  rewrite <- hd_sorted_is_first_least.
  destruct (sorted preference answer); reflexivity.
Qed.

Lemma first_host_is_first_least_preferred_witness :
  exists ordered,
    fst (get_mx_records accepting_env (u"example.org") (init []))
    = Return (map host_of ordered)
    /\ List.length ordered = List.length sample_answer
    /\ (forall p,
          filter (fun mx => (preference mx =? p)%N) ordered
          = filter (fun mx => (preference mx =? p)%N) sample_answer)
    /\ hd_error (map host_of ordered)
       = option_map host_of (find (is_least sample_answer) sample_answer).
Proof.
  apply (first_host_is_first_least_preferred accepting_env (u"example.org")
           (init []) sample_answer).
  reflexivity.
Defined.

(** ** Statistics *)

Lemma get_stats_run SE format_rate w :
  exists stats,
    get_stats SE format_rate w = (Return stats, w)
    /\ (stats = [] <->
        count_fault SE <> None \/ count_valid_fault SE <> None
        \/ count_recent_fault SE <> None).
Proof.
  unfold get_stats, count_rows, try_except, bind, raise, get, ret.
  destruct (count_fault SE), (count_valid_fault SE), (count_recent_fault SE);
    eexists; (split; [reflexivity|]);
    split; intro H; try reflexivity; try discriminate H;
    try (left; discriminate); try (right; left; discriminate);
    try (right; right; discriminate).
  destruct H as [H | [H | H]]; congruence.
Qed.

(** [get_stats] never raises and never changes the verifier.  It returns
    the empty [dict] exactly when one of its three statements fails. *)
Theorem get_stats_never_fails SE format_rate w :
  exists stats,
    get_stats SE format_rate w = (Return stats, w)
    /\ (stats = [] <->
        count_fault SE <> None \/ count_valid_fault SE <> None
        \/ count_recent_fault SE <> None).
Proof. apply get_stats_run. Qed.

(** With the store answering, [get_stats] returns five fields: the number
    of rows, the number of rows with a true verdict, their difference,
    the number of rows younger than 24 hours, and a rate.  The valid and
    the recent count lie between 0 and the total, and over an empty table
    the counts are 0 and the rate is the text "0%", with no division. *)
Theorem get_stats_counts SE format_rate w :
  count_fault SE = None ->
  count_valid_fault SE = None ->
  count_recent_fault SE = None ->
  exists stats total valid recent rate,
    fst (get_stats SE format_rate w) = Return stats
    /\ map fst stats
       = [u"total_verifications"; u"valid_emails"; u"invalid_emails";
          u"recent_24h"; u"success_rate"]
    /\ dict_get (u"total_verifications") stats = Some (JInt total)
    /\ dict_get (u"valid_emails") stats = Some (JInt valid)
    /\ dict_get (u"invalid_emails") stats = Some (JInt (total - valid))
    /\ dict_get (u"recent_24h") stats = Some (JInt recent)
    /\ dict_get (u"success_rate") stats = Some (JStr rate)
    /\ total = Z.of_nat (List.length (table w))
    /\ valid = Z.of_nat (List.length (filter row_is_valid (table w)))
    /\ recent
       = Z.of_nat
           (List.length
              (filter
                 (fun r =>
                    (stats_clock SE - 24 * microseconds_per_hour
                     <? row_timestamp r)%Z)
                 (table w)))
    /\ (0 <= valid <= total)%Z
    /\ (0 <= recent <= total)%Z
    /\ (table w = [] -> total = 0%Z /\ rate = u"0%")
    /\ (table w <> [] -> rate = format_rate valid total ++ u"%").
Proof.
  intros H1 H2 H3.
  unfold get_stats, count_rows, try_except, bind, raise, get, ret.
  rewrite H1, H2, H3. cbn [fst].
  assert (Hall : filter (fun _ : row => true) (table w) = table w).
  { induction (table w) as [|x t IH]; simpl; congruence. }
  rewrite Hall.
  do 5 eexists. split; [reflexivity|].
  split; [reflexivity|].
  do 5 (split; [reflexivity|]).
  split; [reflexivity|]. split; [reflexivity|]. split; [reflexivity|].
  split; [split; [lia | apply inj_le, filter_length_le]|].
  split; [split; [lia | apply inj_le, filter_length_le]|].
  split.
  - intros ->. split; reflexivity.
  - intro Hne. destruct (table w); [congruence|]. reflexivity.
Qed.

Lemma get_stats_counts_witness :
  exists stats total valid recent rate,
    fst (get_stats (working_stats 63865000000000002) (fun _ _ => u"50.0")
           (init [fresh_row; accepted_row]))
    = Return stats
    /\ map fst stats
       = [u"total_verifications"; u"valid_emails"; u"invalid_emails";
          u"recent_24h"; u"success_rate"]
    /\ dict_get (u"total_verifications") stats = Some (JInt total)
    /\ dict_get (u"valid_emails") stats = Some (JInt valid)
    /\ dict_get (u"invalid_emails") stats = Some (JInt (total - valid))
    /\ dict_get (u"recent_24h") stats = Some (JInt recent)
    /\ dict_get (u"success_rate") stats = Some (JStr rate)
    /\ total = Z.of_nat (List.length (table (init [fresh_row; accepted_row])))
    /\ valid
       = Z.of_nat
           (List.length
              (filter row_is_valid (table (init [fresh_row; accepted_row]))))
    /\ recent
       = Z.of_nat
           (List.length
              (filter
                 (fun r =>
                    (stats_clock (working_stats 63865000000000002)
                     - 24 * microseconds_per_hour
                     <? row_timestamp r)%Z)
                 (table (init [fresh_row; accepted_row]))))
    /\ (0 <= valid <= total)%Z
    /\ (0 <= recent <= total)%Z
    /\ (table (init [fresh_row; accepted_row]) = [] ->
        total = 0%Z /\ rate = u"0%")
    /\ (table (init [fresh_row; accepted_row]) <> [] ->
        rate = (fun _ _ => u"50.0") valid total ++ u"%").
Proof.
  apply (get_stats_counts (working_stats 63865000000000002) (fun _ _ => u"50.0")
           (init [fresh_row; accepted_row])).
  - reflexivity.
  - reflexivity.
  - reflexivity.
Defined.







(** ** The routes *)

(** [POST /verify] never ends in the 500 of its handler: whatever the
    address, the resolver, the mail host and the store do, it returns a
    body of seven fields, each taken from the outcome of [verify_email]:
    the address as asked, the verdict, the status code or null, the
    reply of the host, the time the verification took, whether the
    outcome came from the cache, and the MX hosts.  At most three MX
    hosts are shown, the first ones; the error message and the timestamp
    of the outcome are not part of the body. *)
Theorem verify_route_always_returns rt E addr w :
  exists result w',
    verify_email rt E addr w = (Return result, w')
    /\ email result = addr
    /\ verify_email_route rt E addr w
       = (Return
            (Returned
               [ (u"email", Plain (JStr addr));
                 (u"is_valid", Plain (JBool (is_valid result)));
                 (u"status_code",
                  Plain match status_code result with
                        | Some n => JInt n
                        | None => JNull
                        end);
                 (u"server_response", Plain (JStr (server_response result)));
                 (u"verification_time",
                  Plain (JFloat (verification_time result)));
                 (u"cached", Plain (JBool (cached result)));
                 (u"mx_records",
                  Plain (JStrings (firstn 3 (mx_records result)))) ]),
          w')
    /\ List.length (firstn 3 (mx_records result)) <= 3.
Proof.
  destruct (verify_email_returns rt E addr w) as (result & w' & Hrun).
  assert (Hemail : email result = addr).
  { rewrite verify_email_run in Hrun.
    destruct (cache_lookup E addr (table w)) as [hit|] eqn:Hl.
    - apply cache_lookup_some in Hl as (r & _ & Hk & ->).
      injection Hrun as <- _. exact Hk.
    - injection Hrun as <- _. apply miss_result_email. }
  exists result, w'. split; [exact Hrun|]. split; [exact Hemail|].
  split; [|apply firstn_le_length].
  unfold verify_email_route, try_except, bind, ret, json_of_status.
  rewrite Hrun, Hemail. reflexivity.
Qed.

(** [GET /health] never ends in its 503: [get_stats] has kept every
    failure of the store to itself, so the route answers "healthy" and
    "connected" also when the store fails, then with empty statistics. *)
Theorem health_check_always_healthy SE format_rate w :
  exists stats,
    health_check SE format_rate w
    = (Return (Returned [ (u"status", Plain (JStr (u"healthy")));
                          (u"database", Plain (JStr (u"connected")));
                          (u"stats", Nested stats) ]), w)
    /\ fst (get_stats SE format_rate w) = Return stats
    /\ (stats = [] <->
        count_fault SE <> None \/ count_valid_fault SE <> None
        \/ count_recent_fault SE <> None).
Proof.
  destruct (get_stats_run SE format_rate w) as (stats & Hrun & Hiff).
  exists stats. unfold health_check, try_except, bind, ret.
  rewrite Hrun. repeat split; apply Hiff.
Qed.

(** [GET /stats] never ends in its 500 either: it returns what
    [get_stats] returned, the empty [dict] when the store fails. *)
Theorem stats_route_always_returns SE format_rate w :
  exists stats,
    get_stats_route SE format_rate w
    = (Return (Returned [ (u"stats", Nested stats) ]), w)
    /\ fst (get_stats SE format_rate w) = Return stats.
Proof.
  destruct (get_stats_run SE format_rate w) as (stats & Hrun & _).
  exists stats. unfold get_stats_route, try_except, bind, ret.
  rewrite Hrun. split; reflexivity.
Qed.
